(** * sonarwhal CLI wizards: [init] and [new-rule]

    A shallow embedding of the two interactive wizards of
    [packages/sonarwhal/src/lib/cli/wizards] and of the Handlebars helpers
    they use ([utils/handlebars]), with the properties of the scaffolding
    pipeline proved about it.

    The wizards are [async] functions that talk to the operator, to the
    template engine and to the filesystem.  They are embedded as
    computations in a state-and-exception monad over a [World] that holds
    the operator's scripted answers, the trace of every external call
    together with its outcome, and the operations a rejected [Promise.all]
    has left running. *)

From Stdlib Require Import ZArith Ascii String List Lia.
From stdpp Require Import base option list strings gmap fin_maps.

Set Default Proof Using "Type".
Local Open Scope string_scope.
Local Open Scope list_scope.

(* ===================================================================== *)
(** * Errors and results                                                  *)
(* ===================================================================== *)

(** A value thrown by JavaScript code or a rejected promise: a [TypeError]
    raised by the runtime (member access on [undefined]) or the rejection
    of an external collaborator (prompt, template engine, filesystem). *)
Inductive Error : Type :=
| TypeError (msg : string)
| Rejected (reason : string).

(** The outcome of an expression that may throw. *)
Inductive Result (A : Type) : Type :=
| Ok (a : A)
| Throw (e : Error).
Arguments Ok {A} a.
Arguments Throw {A} e.

Definition is_throw {A} (r : Result A) : option Error :=
  match r with
  | Ok _ => None
  | Throw e => Some e
  end.

Definition succeeded {A} (r : Result A) : Prop :=
  match r with
  | Ok _ => True
  | Throw _ => False
  end.

(** JavaScript truthiness of the values the wizards test. *)
Definition truthy_bool (b : option bool) : bool :=
  match b with
  | Some true => true
  | _ => false
  end.

Definition truthy_string (s : string) : bool :=
  match s with
  | EmptyString => false
  | String _ _ => true
  end.

(* ===================================================================== *)
(** * The monad of asynchronous wizard code                               *)
(* ===================================================================== *)

Section task.
Context {Ev Ans : Type}.

(** [pending]: the answers the operator will give, one entry per call of
    [inquirer.prompt], in order (an entry may be a rejection).
    [trace]: every external call made so far, oldest first, each with the
    outcome it settles with.
    [late]: the operations that were left running when a [Promise.all]
    rejected and that settle only after the task has returned; each entry
    gives the calls the operation adds, from the trace at the time it
    settles. *)
Record World : Type := mkWorld {
  pending : list (Result Ans);
  trace : list Ev;
  late : list (list Ev → list Ev)
}.

Definition fresh (script : list (Result Ans)) : World :=
  {| pending := script; trace := []; late := [] |}.

Definition Task (A : Type) : Type := World → Result A * World.

Definition ret {A} (a : A) : Task A := λ w, (Ok a, w).

Definition throw {A} (e : Error) : Task A := λ w, (Throw e, w).

Definition bind {A B} (m : Task A) (k : A → Task B) : Task B :=
  λ w, match m w with
       | (Ok a, w') => k a w'
       | (Throw e, w') => (Throw e, w')
       end.

(** [try { m } catch (e) { h e }]. *)
Definition try_catch {A} (m : Task A) (h : Error → Task A) : Task A :=
  λ w, match m w with
       | (Ok a, w') => (Ok a, w')
       | (Throw e, w') => h e w'
       end.

(** A synchronous expression that may throw. *)
Definition lift {A} (r : Result A) : Task A := λ w, (r, w).

(** An effect that cannot fail (logging). *)
Definition emit (ev : Ev) : Task unit :=
  λ w, (Ok tt, {| pending := pending w; trace := trace w ++ [ev]; late := late w |}).

(** A call of an external collaborator: its outcome is decided by the
    environment from what has happened so far, and is recorded. *)
Definition call {A} (outcome : list Ev → Result A) (record : Result A → Ev)
  : Task A :=
  λ w, let r := outcome (trace w) in
       (r, {| pending := pending w; trace := trace w ++ [record r]; late := late w |}).

(** [await inquirer.prompt(...)]: the next scripted answer.  An exhausted
    script is the operator closing the session: the promise rejects. *)
Definition prompt_closed : Error := Rejected "prompt closed".

Definition ask (record : Result Ans → Ev) : Task Ans :=
  λ w, match pending w with
       | [] => (Throw prompt_closed,
                {| pending := [];
                   trace := trace w ++ [record (Throw prompt_closed)];
                   late := late w |})
       | r :: rest => (r, {| pending := rest;
                             trace := trace w ++ [record r];
                             late := late w |})
       end.

(** A promise: an operation that has been started and is not awaited
    yet.  [start] is what the operation does when it is called, up to its
    first [await]: it makes the external call it waits for, which the
    trace records with the outcome it will settle with.  [resume] is what
    the operation does once that call has settled. *)
Record Promise (A : Type) : Type := mkPromise {
  awaited : Type;
  start : World → awaited * World;
  resume : awaited → Task A
}.
Arguments mkPromise {A} awaited start resume.
Arguments awaited {A} p.
Arguments start {A} p w.
Arguments resume {A} p x w.

(** [await p], alone: the operation is started and runs to its end. *)
Definition await {A} (p : Promise A) : Task A :=
  λ w, match start p w with
       | (x, w') => resume p x w'
       end.

(** The promise of a call of an external collaborator: nothing is left to
    do once the call has settled.  [await (calling outcome record)] is
    [call outcome record]. *)
Definition calling {A} (outcome : list Ev → Result A) (record : Result A → Ev)
  : Promise A :=
  {| awaited := Result A;
     start := λ w, let r := outcome (trace w) in
                   (r, {| pending := pending w;
                          trace := trace w ++ [record r];
                          late := late w |});
     resume := lift |}.

(** The calls a task adds to the trace [h]. *)
Definition added {A} (m : Task A) (h : list Ev) : list Ev :=
  drop (length h)
       (trace (snd (m {| pending := []; trace := h; late := [] |}))).

(** A [Promise.all] rejects with [e] while the operation [rest] is not
    finished.  The operation is not cancelled.  Either what it waits for
    has settled already, and it finishes before the rejection is handled;
    or it is left running, and it finishes after the task has returned
    ([stays] decides). *)
Definition abandon {A B} (stays : list Ev → bool) (e : Error) (rest : Task B)
  : Task A :=
  λ w, if stays (trace w)
       then (Throw e, {| pending := pending w;
                         trace := trace w;
                         late := late w ++ [added rest] |})
       else (Throw e, snd (rest w)).

(** [await Promise.all([p1, p2])].  The two operations are started, in
    order, when the array is built.  They settle in either order
    ([second_first] decides), and an operation resumes when what it waits
    for settles.  [Promise.all] resolves when both operations have
    resolved, and rejects as soon as one of them rejects, with the error of
    that one: the other is abandoned. *)
Definition all2 {A B} (second_first stays : list Ev → bool)
    (p1 : Promise A) (p2 : Promise B) : Task (A * B) :=
  λ w, match start p1 w with
       | (x1, w1) =>
         match start p2 w1 with
         | (x2, w2) =>
           if second_first (trace w2)
           then match resume p2 x2 w2 with
                | (Ok b, w3) =>
                  match resume p1 x1 w3 with
                  | (Ok a, w4) => (Ok (a, b), w4)
                  | (Throw e, w4) => (Throw e, w4)
                  end
                | (Throw e, w3) => abandon stays e (resume p1 x1) w3
                end
           else match resume p1 x1 w2 with
                | (Ok a, w3) =>
                  match resume p2 x2 w3 with
                  | (Ok b, w4) => (Ok (a, b), w4)
                  | (Throw e, w4) => (Throw e, w4)
                  end
                | (Throw e, w3) => abandon stays e (resume p2 x2) w3
                end
         end
       end.


(** [for (const x of xs) { await body(x); }]. *)
Fixpoint for_each {A} (xs : list A) (body : A → Task unit) : Task unit :=
  match xs with
  | [] => ret tt
  | x :: xs' => bind (body x) (λ _, for_each xs' body)
  end.

(** [emits m P]: from every world, [m] only adds events to the trace, and
    its outcome and the events it adds are related by [P]. *)
Definition emits {A} (m : Task A) (P : Result A → list Ev → Prop) : Prop :=
  ∀ w, ∃ t, trace (snd (m w)) = trace w ++ t ∧ P (fst (m w)) t.

(** [leaves m P]: from every world, [m] only adds operations to those
    that are left running, and its outcome and the operations it adds are
    related by [P]. *)
Definition leaves {A} (m : Task A)
    (P : Result A → list (list Ev → list Ev) → Prop) : Prop :=
  ∀ w, ∃ l, late (snd (m w)) = late w ++ l ∧ P (fst (m w)) l.

End task.

Arguments World : clear implicits.
Arguments Task : clear implicits.
Arguments Promise : clear implicits.
Arguments mkPromise {Ev Ans A} awaited start resume.
Arguments awaited {Ev Ans A} p.
Arguments start {Ev Ans A} p w.
Arguments resume {Ev Ans A} p x w.

Declare Scope task_scope.
Delimit Scope task_scope with task.
Notation "x <~ m ;; k" := (bind m (λ x, k))
  (at level 100, m at next level, right associativity) : task_scope.
Notation "m ;;; k" := (bind m (λ _, k))
  (at level 100, right associativity) : task_scope.
Local Open Scope task_scope.

(* ===================================================================== *)
(** * String helpers of the JavaScript runtime                            *)
(* ===================================================================== *)

(** [xs.join(sep)]. *)
Definition join (sep : string) (xs : list string) : string :=
  String.concat sep xs.

(** [s.split(c)] for a one-character separator: the segments between the
    occurrences of [c] (always at least one segment). *)
Fixpoint split_on (c : ascii) (s : string) : list string :=
  match s with
  | EmptyString => [EmptyString]
  | String a s' =>
    if Ascii.eqb a c then EmptyString :: split_on c s'
    else match split_on c s' with
         | [] => [String a EmptyString]
         | seg :: segs => String a seg :: segs
         end
  end.

(** [s.replace(pat, rep)] with a string pattern: the first occurrence only. *)
Fixpoint replace_first (pat rep s : string) : string :=
  if String.prefix pat s
  then rep +:+ String.substring (String.length pat) (String.length s - String.length pat) s
  else match s with
       | EmptyString => EmptyString
       | String a s' => String a (replace_first pat rep s')
       end.

(** Node's [path] and [process] modules, and the [__dirname] of the
    wizards' directory. *)
Class Node : Type := {
  path_join : list string → string;
  path_dirname : string → string;
  process_cwd : string;
  module_dirname : string
}.

(* ===================================================================== *)
(** * utils/handlebars                                                     *)
(* ===================================================================== *)

Module Handlebars.

(** [Handlebars.SafeString]: text the engine inserts without escaping. *)
Inductive SafeString : Type := mkSafeString (str : string).

Definition toString (s : SafeString) : string :=
  match s with mkSafeString str => str end.

Definition backtick : ascii := Ascii.ascii_of_nat 96.
Definition backslash : ascii := Ascii.ascii_of_nat 92.

(** [str.replace(/(`)/g, '\\$1')]: every backtick is replaced by a
    backslash followed by that backtick. *)
Fixpoint escape_backticks (str : string) : string :=
  match str with
  | EmptyString => EmptyString
  | String c rest =>
    if Ascii.eqb c backtick
    then String backslash (String c (escape_backticks rest))
    else String c (escape_backticks rest)
  end.

Definition escapeSafeString (str : string) : SafeString :=
  let result := escape_backticks str in
  mkSafeString result.

End Handlebars.


(* ===================================================================== *)
(** * wizards/new-rule: data model                                        *)
(* ===================================================================== *)

(** What the wizard takes from [utils/misc] and from the host manifest.
    They are not defined in the wizard and are parameters here. *)
Class Misc : Type := {
  (** [normalizeStringByDelimiter(value, delimiter)] of [utils/misc]. *)
  normalizeStringByDelimiter : string → string → string;
  (** [toPascalCase(value)] of [utils/misc]. *)
  toPascalCase : string → string;
  (** [sonarwhalPackage.version] of [utils/handlebars], read from the host
      manifest when the module is loaded. *)
  sonarwhalPackage_version : string
}.

(** [enum QuestionsType]: the main questions, to create a simple rule or a
    package with multiple rules, and the questions to add more rules to the
    package. *)
Module QuestionsType.
Inductive t : Type :=
| main
| rule.
End QuestionsType.

(** One answer map returned by [inquirer.prompt(questions(type))].  A
    question that was not asked (its [when] was false) leaves its key
    undefined: [None].  [name] and [description] are asked in every round. *)
Module Answers.
Record t : Type := mk {
  multi : option bool;
  name : string;
  description : string;
  category : option string;
  useCase : option string;
  elementType : option string;
  scope : option string;
  again : option bool
}.
End Answers.

(** The [results] object once [newRule] has stored [official] and [rules]
    in it: what the [RulePackage] constructor receives. *)
Module PackageData.
Record t : Type := mk {
  answers : Answers.t;
  official : bool;
  rules : list Answers.t
}.
End PackageData.

(** [Category.other] of [enums/category], the fallback category. *)
Definition Category_other : string := "other".

(** A map that matches usecases with events. *)
Definition events : gmap string (list string) :=
  list_to_map [
    ("dom", ["ElementFound"]);
    ("request", ["FetchStart"; "FetchEnd"; "FetchError"]);
    ("thirdPartyService", ["FetchStart"; "FetchEnd"]);
    ("jsInjection", ["ScanEnd"])
  ].

(** Get all events associated with a particular use case:
    [events.get(useCase).join(', ')].  [Map.get] answers [undefined] for a
    key that is not in the map, and the member access then throws. *)
Definition getEventsByUseCase (useCase : option string) : Result string :=
  match useCase ≫= (λ k, events !! k) with
  | Some evs => Ok (join ", " evs)
  | None => Throw (TypeError "Cannot read property 'join' of undefined")
  end.

Module NewRule.

(** [class NewRule].  [useCase] is an object whose keys are assigned
    dynamically, hence a finite map; [prefix] and [external] are declared
    and never assigned. *)
Record t : Type := mk {
  name : string;
  normalizedName : string;
  className : string;
  category : string;
  description : Handlebars.SafeString;
  elementType : option string;
  events : string;
  useCase : gmap string bool;
  scope : option string;
  isRule : bool;
  parentName : option string
}.

Section constructor.
Context {N : Node} {M : Misc}.

Definition constructor (ruleData : Answers.t) (parentName : option string)
  : Result t :=
  let name := Answers.name ruleData in
  let normalizedName := normalizeStringByDelimiter (Answers.name ruleData) "-" in
  let className :=
    (match parentName with
     | Some p => if truthy_string p then toPascalCase p else ""
     | None => ""
     end) +:+ toPascalCase normalizedName +:+ "Rule" in
  let category :=
    match Answers.category ruleData with
    | Some c => if truthy_string c then c else Category_other
    | None => Category_other
    end in
  let description := Handlebars.escapeSafeString (Answers.description ruleData) in
  let elementType := Answers.elementType ruleData in
  match getEventsByUseCase (Answers.useCase ruleData) with
  | Throw e => Throw e
  | Ok evs =>
    let useCase : gmap string bool :=
      {[ "dom" := false; "jsInjection" := false;
         "request" := false; "thirdPartyService" := false ]} in
    let useCase :=
      match Answers.useCase ruleData with
      | Some k => <[ k := true ]> useCase
      | None => <[ "undefined" := true ]> useCase
      end in
    Ok {| name := name;
          normalizedName := normalizedName;
          className := className;
          category := category;
          description := description;
          elementType := elementType;
          events := evs;
          useCase := useCase;
          scope := Answers.scope ruleData;
          isRule := true;
          parentName := parentName |}
  end.

End constructor.
End NewRule.

Module RulePackage.

(** [class RulePackage]. *)
Record t : Type := mk {
  name : string;
  description : Handlebars.SafeString;
  isMulti : option bool;
  normalizedName : string;
  official : bool;
  packageMain : string;
  packageName : string;
  rules : list NewRule.t;
  version : string;
  destination : string;
  isRule : bool
}.

Section constructor.
Context {N : Node} {M : Misc}.

(** [data.rules.forEach((rule) => this.rules.push(new NewRule(rule, parent)))]:
    the first constructor that throws ends the loop. *)
Fixpoint pushRules (rules : list Answers.t) (parent : string)
  : Result (list NewRule.t) :=
  match rules with
  | [] => Ok []
  | r :: rest =>
    match NewRule.constructor r (Some parent) with
    | Throw e => Throw e
    | Ok item =>
      match pushRules rest parent with
      | Throw e => Throw e
      | Ok items => Ok (item :: items)
      end
    end
  end.

Definition constructor (data : PackageData.t) : Result t :=
  let answers := PackageData.answers data in
  let name := Answers.name answers in
  let isMulti := Answers.multi answers in
  let normalizedName := normalizeStringByDelimiter (Answers.name answers) "-" in
  let description := Handlebars.escapeSafeString (Answers.description answers) in
  let official := PackageData.official data in
  let packageMain := "dist/src/index.js" in
  let prefix := if official then "@sonarwhal/" else "sonarwhal-" in
  let packageName := prefix +:+ "rule-" +:+ normalizedName in
  let version := sonarwhalPackage_version in
  match (if truthy_bool isMulti
         then pushRules (PackageData.rules data) normalizedName
         else match NewRule.constructor answers None with
              | Throw e => Throw e
              | Ok item => Ok [item]
              end) with
  | Throw e => Throw e
  | Ok rules =>
    let destination := path_join [process_cwd; "rule-" +:+ normalizedName] in
    Ok {| name := name;
          description := description;
          isMulti := isMulti;
          normalizedName := normalizedName;
          official := official;
          packageMain := packageMain;
          packageName := packageName;
          rules := rules;
          version := version;
          destination := destination;
          isRule := true |}
  end.

End constructor.
End RulePackage.

(* ===================================================================== *)
(** * wizards/new-rule: the generation driver                              *)
(* ===================================================================== *)

Module NewRuleWizard.

(** The object handed to a template: the package for the common files, one
    rule for the per-rule files. *)
Inductive TemplateData : Type :=
| DataPackage (data : RulePackage.t)
| DataRule (data : NewRule.t).

(** The external calls of the wizard, each with its outcome. *)
Inductive Event : Type :=
| EvPrompt (type : QuestionsType.t) (r : Result Answers.t)
| EvIsOfficial (r : Result bool)
| EvCopy (origin destination : string) (r : Result unit)
| EvReadFile (filePath : string) (r : Result string)
| EvRender (templateContent : string) (data : TemplateData) (r : Result string)
| EvMkdirp (dir : string) (r : Result unit)
| EvWriteFile (path content : string) (r : Result unit)
| EvDebug (msg : string)
| EvLog (msg : string)
| EvLogError (msg : string)
| EvLogErrorValue (e : Error).

(** The error an event records, if the call it records failed. *)
Definition failed (ev : Event) : option Error :=
  match ev with
  | EvPrompt _ r => is_throw r
  | EvIsOfficial r => is_throw r
  | EvCopy _ _ r => is_throw r
  | EvReadFile _ r => is_throw r
  | EvRender _ _ r => is_throw r
  | EvMkdirp _ r => is_throw r
  | EvWriteFile _ _ r => is_throw r
  | EvDebug _ | EvLog _ | EvLogError _ | EvLogErrorValue _ => None
  end.


(** The first failed call of a trace, with the events before and after it. *)
Fixpoint first_failure (t : list Event)
  : option (list Event * Event * list Event) :=
  match t with
  | [] => None
  | ev :: rest =>
    match failed ev with
    | Some _ => Some ([], ev, rest)
    | None =>
      match first_failure rest with
      | Some (pre, bad, post) => Some (ev :: pre, bad, post)
      | None => None
      end
    end
  end.

(** What an operation adds when it resumes after the read it waited for:
    the debug message of [compileTemplate] after a failed read, or the
    rendering of the template. *)
Definition resumption (ev : Event) : bool :=
  match ev with
  | EvDebug _ | EvRender _ _ _ => true
  | _ => false
  end.

Definition resumptions (n : nat) (post : list Event) : bool :=
  (length post <=? n)%nat && forallb resumption post.

(** What may follow the first failed call of a run before the failure is
    handled: only what the operations do that were started before the
    failure.  After a failed read, the read that was started with it in
    the same [Promise.all], and what the two operations do when they
    resume; after a failed rendering, what the other operation does when
    it resumes; after a failed [mkdirp] or write, the [mkdirp] or write
    that was started with it.  Nothing follows a failed prompt,
    [isOfficial] or copy. *)
Definition aftermath (bad : Event) (post : list Event) : bool :=
  match bad with
  | EvReadFile _ _ =>
    match post with
    | EvReadFile _ _ :: post' => resumptions 2 post'
    | _ => resumptions 2 post
    end
  | EvRender _ _ _ => resumptions 1 post
  | EvWriteFile _ _ _ =>
    match post with
    | [] | [EvWriteFile _ _ _] => true
    | _ => false
    end
  | EvMkdirp _ _ =>
    match post with
    | [] | [EvMkdirp _ _] => true
    | _ => false
    end
  | _ =>
    match post with
    | [] => true
    | _ => false
    end
  end.

(** The error [r] carries is the error of one of the calls [evs]. *)
Definition blames {A} (r : Result A) (evs : list Event) : Prop :=
  ∃ e, is_throw r = Some e ∧ Some e ∈ failed <$> evs.

(** The events a computation adds are those of a run that stops at its
    first failure: if a call failed, only the [aftermath] of the first
    failed call follows it, and the computation throws the error of that
    call or of a failed call of its aftermath (the first of them to
    reject). *)
Definition stops_at_failure {A} (r : Result A) (t : list Event) : Prop :=
  match first_failure t with
  | None => True
  | Some (pre, bad, post) => blames r (bad :: post) ∧ aftermath bad post = true
  end.

(** What an operation that was left running adds when it settles after the
    wizard has returned: at most one debug message or rendering. *)
Definition settles_quietly (settle : list Event → list Event) : Prop :=
  ∀ h, resumptions 1 (settle h) = true.

(** A computation leaves nothing running when it succeeds, and at most one
    operation, which settles quietly, when it fails. *)
Definition leaves_quietly {A} (r : Result A)
    (l : list (list Event → list Event)) : Prop :=
  (succeeded r → l = []) ∧ (length l ≤ 1)%nat ∧ Forall settles_quietly l.

(** The files a trace has written, and the templates it has read. *)
Definition written_files (t : list Event) : list string :=
  omap (λ ev, match ev with
              | EvWriteFile path _ (Ok _) => Some path
              | _ => None
              end) t.

Definition templates_read (t : list Event) : list string :=
  omap (λ ev, match ev with
              | EvReadFile filePath _ => Some filePath
              | _ => None
              end) t.

(** The collaborators: [isOfficial] of [utils/misc], [fs.copy] of
    [fs-extra], [readFileAsync] and [writeFileAsync] of [utils/misc], the
    Handlebars engine and [mkdirp], and the event loop of the runtime.
    Each decides its outcome from the history of the run and its
    arguments. *)
Class Effects : Type := {
  isOfficial : list Event → Result bool;
  fs_copy : list Event → string → string → Result unit;
  readFileAsync : list Event → string → Result string;
  Handlebars_compile : list Event → string → TemplateData → Result string;
  mkdirp : list Event → string → Result unit;
  writeFileAsync : list Event → string → string → Result unit;
  (** The event loop.  [settles_first]: of the two operations of a
      [Promise.all], whether the second settles before the first.
      [outlives]: whether the operation that is not finished when a
      [Promise.all] rejects settles only after the wizard has returned. *)
  settles_first : list Event → bool;
  outlives : list Event → bool
}.

(** [CLIOptions] of [types]: the one flag this wizard reads. *)
Record CLIOptions : Type := { newRule_flag : bool }.

Abbreviation Wizard := (Task Event Answers.t).
Abbreviation Async := (Promise Event Answers.t).

Definition nl : string := String (Ascii.ascii_of_nat 10) EmptyString.

Section wizard.
Context {N : Node} {M : Misc} {E : Effects}.

(** [compileTemplate] of [utils/handlebars].  The function starts the
    read and waits for it.  Once the read has settled, it logs a debug
    message and rethrows if the read failed; otherwise it compiles the
    template and renders it. *)
Definition compileTemplate (filePath : string) (data : TemplateData)
  : Async string :=
  {| awaited := Result string;
     start := start (calling (λ h, readFileAsync h filePath) (EvReadFile filePath));
     resume := λ read,
       templateContent <~
         try_catch
           (lift read)
           (λ err, emit (EvDebug ("Error reading file: " +:+ filePath));;; throw err);;
       call (λ h, Handlebars_compile h templateContent data)
            (EvRender templateContent data) |}.

Definition mkdirpAsync (dir : string) : Async unit :=
  calling (λ h, mkdirp h dir) (EvMkdirp dir).

Definition writeFile (path content : string) : Async unit :=
  calling (λ h, writeFileAsync h path content) (EvWriteFile path content).

(** [Promise.all] of two promises, scheduled by the event loop. *)
Definition Promise_all {A B} (p1 : Async A) (p2 : Async B) : Wizard (A * B) :=
  all2 settles_first outlives p1 p2.

(** Name of the package to use as a template. *)
Definition TEMPLATE_PATH : string := "./templates/new-rule".
Definition SHARED_TEMPLATE_PATH : string := "./shared-templates".

(** One entry of the file lists of [generateRuleFiles]. *)
Record File : Type := { destination : string; path : string }.

(** Copies the required files for no official rules. *)
Definition copyFiles (origin destination : string) : Wizard unit :=
  emit (EvLog ("Creating new rule in " +:+ destination));;;
  call (λ h, fs_copy h origin destination) (EvCopy origin destination);;;
  emit (EvLog "External files copied").

Definition commonFiles (dest : string) (data : RulePackage.t) : list File :=
  [ {| destination := path_join [dest; "src"; "index.ts"];
       path := path_join [module_dirname; TEMPLATE_PATH; "index.ts.hbs"] |};
    {| destination := path_join [dest; "README.md"];
       path := path_join [module_dirname; TEMPLATE_PATH; "readme.md.hbs"] |};
    {| destination := path_join [dest; "tsconfig.json"];
       path := path_join [module_dirname; SHARED_TEMPLATE_PATH; "tsconfig.json.hbs"] |};
    {| destination := path_join [dest; "package.json"];
       path := path_join [module_dirname; SHARED_TEMPLATE_PATH; "package.hbs"] |} ]
  ++ (if negb (RulePackage.official data)
      then [ {| destination := path_join [dest; ".sonarwhalrc"];
                path := path_join [module_dirname; SHARED_TEMPLATE_PATH; "config.hbs"] |} ]
      else []).

Definition ruleFile (dest : string) : File :=
  {| destination := path_join [dest; "src"];
     path := path_join [module_dirname; TEMPLATE_PATH; "rule.ts.hbs"] |}.

Definition testFile (dest : string) : File :=
  {| destination := path_join [dest; "tests"];
     path := path_join [module_dirname; TEMPLATE_PATH; "tests.ts.hbs"] |}.

Definition docFile (dest : string) : File :=
  {| destination := path_join [dest; "docs"];
     path := path_join [module_dirname; TEMPLATE_PATH; "rule-doc.hbs"] |}.

(** The body of the first loop of [generateRuleFiles]. *)
Definition generateCommonFile (data : RulePackage.t) (file : File) : Wizard unit :=
  fileContent <~ await (compileTemplate (path file) (DataPackage data));;
  await (mkdirpAsync (path_dirname (destination file)));;;
  await (writeFile (destination file) fileContent).

(** The body of the second loop of [generateRuleFiles]. *)
Definition generateRuleFile (dest : string) (data : RulePackage.t)
    (rule : NewRule.t) : Wizard unit :=
  contents <~ Promise_all (compileTemplate (path (ruleFile dest)) (DataRule rule))
                          (compileTemplate (path (testFile dest)) (DataRule rule));;
  let ruleContent := fst contents in
  let testContent := snd contents in
  let rulePath :=
    path_join [destination (ruleFile dest); NewRule.normalizedName rule +:+ ".ts"] in
  let testPath :=
    path_join [destination (testFile dest); NewRule.normalizedName rule +:+ ".ts"] in
  let docPath :=
    path_join [destination (docFile dest); NewRule.normalizedName rule +:+ ".md"] in
  Promise_all (mkdirpAsync (path_dirname rulePath))
              (mkdirpAsync (path_dirname testPath));;;
  Promise_all (writeFile rulePath ruleContent) (writeFile testPath testContent);;;
  if truthy_bool (RulePackage.isMulti data)
  then docContent <~ await (compileTemplate (path (docFile dest)) (DataRule rule));;
       await (mkdirpAsync (path_dirname docPath));;;
       await (writeFile docPath docContent)
  else ret tt.

Definition generateRuleFiles (dest : string) (data : RulePackage.t) : Wizard unit :=
  for_each (commonFiles dest data) (generateCommonFile data);;;
  for_each (RulePackage.rules data) (generateRuleFile dest data).

(** The manifest of the planner, by the policy table of the specification:
    the common files, then for each rule its source and test files and,
    in a package of several rules, its documentation file. *)
Definition ruleFiles (dest : string) (data : RulePackage.t) (rule : NewRule.t)
  : list File :=
  [ {| destination := path_join [destination (ruleFile dest);
                                 NewRule.normalizedName rule +:+ ".ts"];
       path := path (ruleFile dest) |};
    {| destination := path_join [destination (testFile dest);
                                 NewRule.normalizedName rule +:+ ".ts"];
       path := path (testFile dest) |} ]
  ++ (if truthy_bool (RulePackage.isMulti data)
      then [ {| destination := path_join [destination (docFile dest);
                                          NewRule.normalizedName rule +:+ ".md"];
                path := path (docFile dest) |} ]
      else []).

Definition manifest (dest : string) (data : RulePackage.t) : list File :=
  commonFiles dest data ++ (RulePackage.rules data ≫= ruleFiles dest data).

(** A successful run has read the templates of [files] and written their
    destinations, in order. *)
Definition produces {A} (files : list File) (r : Result A) (t : list Event) : Prop :=
  succeeded r →
  templates_read t = path <$> files ∧ written_files t = destination <$> files.

(** The closure [askRules] of [newRule]: one prompt round, the answer is
    pushed on [rules], and the closure calls itself when the round's [again]
    is truthy.  The recursion is on the operator's script; [rules] is the
    array the closure captures. *)
Fixpoint askRules_script (script : list (Result Answers.t))
    (rules : list Answers.t) (tr : list Event)
    (left : list (list Event → list Event))
  : Result (list Answers.t) * World Event Answers.t :=
  match script with
  | [] =>
    (Throw prompt_closed,
     {| pending := [];
        trace := tr ++ [EvPrompt QuestionsType.rule (Throw prompt_closed)];
        late := left |})
  | r :: rest =>
    let tr' := tr ++ [EvPrompt QuestionsType.rule r] in
    match r with
    | Throw e => (Throw e, {| pending := rest; trace := tr'; late := left |})
    | Ok answer =>
      let rules' := rules ++ [answer] in
      if truthy_bool (Answers.again answer)
      then askRules_script rest rules' tr' left
      else (Ok rules', {| pending := rest; trace := tr'; late := left |})
    end
  end.

Definition askRules (rules : list Answers.t) : Wizard (list Answers.t) :=
  λ w, askRules_script (pending w) rules (trace w) (late w).

Definition created_message (pkg : RulePackage.t) : string :=
  nl +:+ "New " +:+ (if truthy_bool (RulePackage.isMulti pkg) then "package" else "rule")
     +:+ " " +:+ RulePackage.name pkg
     +:+ " created in " +:+ RulePackage.destination pkg +:+ nl
     +:+ nl
     +:+ "--------------------------------------" +:+ nl
     +:+ "----          How to use          ----" +:+ nl
     +:+ "--------------------------------------".

Definition howto_official (pkg : RulePackage.t) : string :=
  "1. Run 'yarn' to install the dependencies." +:+ nl
  +:+ "2. Go to the folder 'packages/rule-" +:+ RulePackage.normalizedName pkg +:+ "'." +:+ nl
  +:+ "3. Run 'yarn build' to build the project." +:+ nl
  +:+ "4. Go to the folder 'packages/sonarwhal'." +:+ nl
  +:+ "5. Add your rule to '.sonarwhalrc'." +:+ nl
  +:+ "6. Run 'yarn sonarwhal https://YourUrl' to analyze your site.".

Definition howto_community (pkg : RulePackage.t) : string :=
  "1. Go to the folder 'rule-" +:+ RulePackage.normalizedName pkg +:+ "'." +:+ nl
  +:+ "2. Run 'npm run init' to install all the dependencies and build the project." +:+ nl
  +:+ "3. Run 'npm run sonarwhal -- https://YourUrl' to analyze you site.".

(** The [try] block of [newRule]. *)
Definition newRule_try : Wizard bool :=
  results <~ ask (EvPrompt QuestionsType.main);;
  official <~ call isOfficial EvIsOfficial;;
  rules <~ (if truthy_bool (Answers.multi results) then askRules [] else ret []);;
  rulePackage <~ lift (RulePackage.constructor
                         {| PackageData.answers := results;
                            PackageData.official := official;
                            PackageData.rules := rules |});;
  let noOfficialOrigin := path_join [module_dirname; "no-official-files"] in
  let files := path_join [module_dirname; "files"] in
  (if negb (RulePackage.official rulePackage)
   then copyFiles noOfficialOrigin (RulePackage.destination rulePackage)
   else ret tt);;;
  copyFiles files (RulePackage.destination rulePackage);;;
  generateRuleFiles (RulePackage.destination rulePackage) rulePackage;;;
  emit (EvLog (created_message rulePackage));;;
  emit (EvLog (if RulePackage.official rulePackage
               then howto_official rulePackage
               else howto_community rulePackage));;;
  ret true.

(** The [catch] block of [newRule]. *)
Definition newRule_catch (e : Error) : Wizard bool :=
  emit (EvLogError "Error trying to create new rule");;;
  emit (EvLogErrorValue e);;;
  ret false.

(** Add a new rule. *)
Definition newRule (actions : CLIOptions) : Wizard bool :=
  if negb (newRule_flag actions)
  then ret false
  else try_catch newRule_try newRule_catch.

End wizard.
End NewRuleWizard.

(* ===================================================================== *)
(** * wizards/init: generating a [.sonarwhalrc]                            *)
(* ===================================================================== *)

(** [enum ResourceType] of [enums/resourcetype]; each member's value is its
    name. *)
Module ResourceType.
Inductive t : Type :=
| configuration
| connector
| formatter
| parser
| rule.

Definition value (type : t) : string :=
  match type with
  | configuration => "configuration"
  | connector => "connector"
  | formatter => "formatter"
  | parser => "parser"
  | rule => "rule"
  end.
End ResourceType.

(** The JavaScript values a configuration object is made of. *)
#[local] Set Warnings "-register-all".
Inductive Json : Type :=
| JString (s : string)
| JNumber (n : Z)
| JArray (items : list Json)
| JObject (fields : list (string * Json)).

(** [obj[key]]: the value of an own property, [None] when the object has
    no such field. *)
Fixpoint obj_get (key : string) (fields : list (string * Json)) : option Json :=
  match fields with
  | [] => None
  | (k, v) :: rest => if String.eqb k key then Some v else obj_get key rest
  end.

(** An array index: the decimal text, without a leading zero, of an
    integer below 2^32 - 1. *)
Definition digit (c : ascii) : option N :=
  let n := N_of_ascii c in
  if (48 <=? n)%N && (n <=? 57)%N then Some (n - 48)%N else None.

Fixpoint decimal (acc : N) (s : string) : option N :=
  match s with
  | EmptyString => Some acc
  | String c rest =>
    match digit c with
    | Some d => decimal (10 * acc + d)%N rest
    | None => None
    end
  end.

Definition array_index (key : string) : option N :=
  match key with
  | EmptyString => None
  | String c rest =>
    if Ascii.eqb c "0" && negb (String.eqb rest EmptyString) then None
    else match decimal 0 key with
         | Some n => if (n <? 4294967295)%N then Some n else None
         | None => None
         end
  end.

Definition has_field (key : string) (fields : list (string * Json)) : bool :=
  existsb (λ kv, String.eqb (fst kv) key) fields.

(** The value of an existing field is replaced, the field keeps its
    place. *)
Fixpoint obj_replace (key : string) (value : Json) (fields : list (string * Json))
  : list (string * Json) :=
  match fields with
  | [] => []
  | (k, v) :: rest =>
    if String.eqb k key then (k, value) :: rest
    else (k, v) :: obj_replace key value rest
  end.

(** A new field whose key is the array index [n] is added after the
    array indices below [n]. *)
Fixpoint obj_insert (n : N) (key : string) (value : Json)
    (fields : list (string * Json)) : list (string * Json) :=
  match fields with
  | [] => [(key, value)]
  | (k, v) :: rest =>
    match array_index k with
    | Some m =>
      if (m <? n)%N then (k, v) :: obj_insert n key value rest
      else (key, value) :: fields
    | None => (key, value) :: fields
    end
  end.

(** [obj[key] = value] on an ordinary object.  [fields] lists the own
    properties in the order the runtime enumerates and serializes them:
    the array indices first, in ascending order, then the other keys in
    the order they were added.  An existing field keeps its place.
    Assigning to [__proto__] sets or ignores the prototype and adds no
    field. *)
Definition obj_set (key : string) (value : Json) (fields : list (string * Json))
  : list (string * Json) :=
  if String.eqb key "__proto__" then fields
  else if has_field key fields then obj_replace key value fields
  else match array_index key with
       | Some n => obj_insert n key value fields
       | None => fields ++ [(key, value)]
       end.

Definition field (key : string) (j : Json) : option Json :=
  match j with
  | JObject fields => obj_get key fields
  | _ => None
  end.

Module Init.

(** [NpmPackage] of [types]: the wizard reads its [name]. *)
Record NpmPackage : Type := { name : string }.

Record InitUserConfig : Type := {
  config : Json;
  packages : option (list string)
}.

(** A choice of a list or checkbox question. *)
Record Choice : Type := { choice_name : string; choice_value : string }.

Definition plain (key : string) : Choice :=
  {| choice_name := key; choice_value := key |}.

(** One [inquirer] question. *)
Record Question : Type := {
  q_choices : list Choice;
  q_default : option string;
  q_message : string;
  q_name : string;
  q_pageSize : option nat;
  q_type : string
}.

(** The answer map of one prompt; the fields of questions that were not
    part of the prompt are not read.  [parsers] is undefined when the
    parsers question was not asked. *)
Module Answers.
Record t : Type := mk {
  configType : string;
  configuration : string;
  connector : string;
  formatter : string;
  rules : list string;
  parsers : option (list string)
}.
End Answers.

Inductive Event : Type :=
| EvDebug (msg : string)
| EvLog (msg : string)
| EvLogError (msg : string)
| EvPrompt (questions : list Question) (r : Result Answers.t)
| EvGetOfficialPackages (type : ResourceType.t) (r : Result (list NpmPackage))
| EvBrowserslist (r : Result (list string))
| EvWriteFile (filePath : string) (data : Json) (r : Result unit)
| EvInstallPackages (packages : list string) (r : Result unit).

(** The events that change the disk: writing the configuration file and
    installing packages. *)
Definition touches_disk (ev : Event) : bool :=
  match ev with
  | EvWriteFile _ _ _ | EvInstallPackages _ _ => true
  | _ => false
  end.

(** The configuration objects a trace has handed to [fs.writeFile]. *)
Definition written_configs (t : list Event) : list Json :=
  omap (λ ev, match ev with
              | EvWriteFile _ data _ => Some data
              | _ => None
              end) t.

(** The collaborators: [getOfficialPackages] and [installPackages] of
    [utils/npm], [getInstalledResources] and [getCoreResources] of
    [utils/resource-loader], [generateBrowserslistConfig] of
    [cli/browserslist], and [fs.writeFile], which receives
    [JSON.stringify(config, null, 4)]: the event keeps the object that is
    serialized. *)
Class Effects : Type := {
  getOfficialPackages : list Event → ResourceType.t → Result (list NpmPackage);
  getInstalledResources : ResourceType.t → list string;
  getCoreResources : ResourceType.t → list string;
  generateBrowserslistConfig : list Event → Result (list string);
  fs_writeFile : list Event → string → Json → Result unit;
  installPackages : list Event → list string → Result unit
}.

Abbreviation Wizard := (Task Event Answers.t).

Definition defaultFormatter : string := "summary".

Section wizard.
Context {N : Node} {E : Effects}.

(** Validates if the given array is not empty and if so, prints an error
    message. *)
Definition anyResources {A} (resources : list A) (type : ResourceType.t)
  : Wizard bool :=
  match resources with
  | _ :: _ => ret true
  | [] =>
    emit (EvLogError ("Couldn't find any installed " +:+ ResourceType.value type
                      +:+ "s. Visit https://www.npmjs.com/search?q=%40sonarwhal%2F"
                      +:+ ResourceType.value type +:+ "."));;;
    ret false
  end.

(** [pkgName.split('/')[1].replace('configuration-', '')]. *)
Definition getConfigurationName (pkgName : string) : Result string :=
  match split_on "/" pkgName !! 1%nat with
  | Some seg => Ok (replace_first "configuration-" "" seg)
  | None => Throw (TypeError "Cannot read property 'replace' of undefined")
  end.

(** [configPackages.map((pkg) => ({ name: getConfigurationName(pkg.name), value: pkg.name }))]. *)
Fixpoint configChoices (configPackages : list NpmPackage) : Result (list Choice) :=
  match configPackages with
  | [] => Ok []
  | pkg :: rest =>
    match getConfigurationName (name pkg) with
    | Throw e => Throw e
    | Ok n =>
      match configChoices rest with
      | Throw e => Throw e
      | Ok cs => Ok ({| choice_name := n; choice_value := name pkg |} :: cs)
      end
    end
  end.

(** Shows the user a list of official configuration packages available in
    npm to install. *)
Definition extendConfig : Wizard (option InitUserConfig) :=
  configPackages <~ call (λ h, getOfficialPackages h ResourceType.configuration)
                         (EvGetOfficialPackages ResourceType.configuration);;
  any <~ anyResources configPackages ResourceType.configuration;;
  if negb any then ret None
  else
    choices <~ lift (configChoices configPackages);;
    let questions :=
      [ {| q_choices := choices;
           q_default := None;
           q_message := "Choose the configuration you want to extend from";
           q_name := "configuration";
           q_pageSize := Some 15%nat;
           q_type := "list" |} ] in
    answers <~ ask (EvPrompt questions);;
    extended <~ lift (getConfigurationName (Answers.configuration answers));;
    let sonarwhalConfig := JObject [("extends", JArray [JString extended])] in
    ret (Some {| config := sonarwhalConfig;
                 packages := Some [Answers.configuration answers] |}).

(** [results.rules.forEach((rule) => { sonarwhalConfig.rules[rule] = 'error'; })]. *)
Definition rulesObject (rules : list string) : list (string * Json) :=
  foldl (λ obj rule, obj_set rule (JString "error") obj) [] rules.

(** Prompts a series of questions to create a new configuration object
    based on the installed packages. *)
Definition customConfig : Wizard (option InitUserConfig) :=
  let connectorKeys :=
    getInstalledResources ResourceType.connector ++ getCoreResources ResourceType.connector in
  let formattersKeys :=
    getInstalledResources ResourceType.formatter ++ getCoreResources ResourceType.formatter in
  let parsersKeys :=
    getInstalledResources ResourceType.parser ++ getCoreResources ResourceType.parser in
  let rulesKeys :=
    getInstalledResources ResourceType.rule ++ getCoreResources ResourceType.rule in
  anyConnector <~ anyResources connectorKeys ResourceType.connector;;
  anyFormatter <~ (if anyConnector
                   then anyResources formattersKeys ResourceType.formatter
                   else ret false);;
  anyRule <~ (if anyFormatter
              then anyResources rulesKeys ResourceType.rule
              else ret false);;
  if negb anyRule then ret None
  else
    let customQuestions :=
      [ {| q_choices := plain <$> connectorKeys;
           q_default := None;
           q_message := "What connector do you want to use?";
           q_name := "connector";
           q_pageSize := None;
           q_type := "list" |};
        {| q_choices := plain <$> formattersKeys;
           q_default := Some defaultFormatter;
           q_message := "What formatter do you want to use?";
           q_name := "formatter";
           q_pageSize := None;
           q_type := "list" |};
        {| q_choices := plain <$> rulesKeys;
           q_default := None;
           q_message := "Choose the rules you want to add to your configuration";
           q_name := "rules";
           q_pageSize := Some 15%nat;
           q_type := "checkbox" |} ]
      (* Parsers are not mandatory *)
      ++ (match parsersKeys with
          | _ :: _ =>
            [ {| q_choices := plain <$> parsersKeys;
                 q_default := None;
                 q_message := "What parsers do you want to use?";
                 q_name := "parsers";
                 q_pageSize := Some 15%nat;
                 q_type := "checkbox" |} ]
          | [] => []
          end) in
    results <~ ask (EvPrompt customQuestions);;
    browserslist <~ call generateBrowserslistConfig EvBrowserslist;;
    let sonarwhalConfig :=
      JObject [
        ("browserslist", JArray (JString <$> browserslist));
        ("connector", JObject [ ("name", JString (Answers.connector results));
                                ("options", JObject [("waitFor", JNumber 1000)]) ]);
        ("extends", JArray []);
        ("formatters", JArray [JString (Answers.formatter results)]);
        ("ignoredUrls", JArray []);
        ("rules", JObject (rulesObject (Answers.rules results)));
        ("rulesTimeout", JNumber 120000)
      ] in
    ret (Some {| config := sonarwhalConfig; packages := None |}).

Definition initialQuestion : list Question :=
  [ {| q_choices := [plain "predefined"; plain "custom"];
       q_default := Some "predefined";
       q_message := "Do you want to use a predefined configuration or create your own based on your installed packages?";
       q_name := "configType";
       q_pageSize := None;
       q_type := "list" |} ].

(** [Array.isArray(result.packages) && result.packages.length > 0] and what
    follows it. *)
Definition installExtended (result : InitUserConfig) : Wizard bool :=
  match packages result with
  | Some (first :: rest) =>
    configurationName <~ lift (getConfigurationName first);;
    let isInstalled :=
      existsb (String.eqb configurationName)
              (getInstalledResources ResourceType.configuration) in
    if isInstalled then ret true
    else
      call (λ h, installPackages h (first :: rest)) (EvInstallPackages (first :: rest));;;
      ret true
  | _ => ret true
  end.

(** Initiates a wizard to generate a valid [.sonarwhalrc] file based on an
    existing published configuration package or on the installed
    resources: the module's default export. *)
Definition init : Wizard bool :=
  emit (EvDebug "Starting --init");;;
  emit (EvLog "Welcome to sonarwhal configuration generator");;;
  initialAnswer <~ ask (EvPrompt initialQuestion);;
  result <~ (if String.eqb (Answers.configType initialAnswer) "predefined"
             then extendConfig
             else customConfig);;
  match result with
  | None => ret false
  | Some result =>
    let filePath := path_join [process_cwd; ".sonarwhalrc"] in
    call (λ h, fs_writeFile h filePath (config result))
         (EvWriteFile filePath (config result));;;
    installExtended result
  end.

End wizard.
End Init.

(* ===================================================================== *)
(** * Where the escaped description lands                                 *)
(* ===================================================================== *)

(** The templates put the description between the backticks of a template
    literal of the generated TypeScript file, as in the example of
    [escapeSafeString]'s documentation.  Reading the body of such a
    literal, a backslash escapes the character after it, and a backtick
    that is not escaped ends the literal.  [closes_literal body] says
    whether [body] contains a backtick that ends the literal. *)
Fixpoint closes_literal (body : string) : bool :=
  match body with
  | EmptyString => false
  | String c rest =>
    if Ascii.eqb c Handlebars.backslash
    then match rest with
         | EmptyString => false
         | String _ rest' => closes_literal rest'
         end
    else if Ascii.eqb c Handlebars.backtick then true
    else closes_literal rest
  end.

(** The characters of a string, to talk about positions. *)
Fixpoint chars (s : string) : list ascii :=
  match s with
  | EmptyString => []
  | String c rest => c :: chars rest
  end.

(* ===================================================================== *)
(** * Concrete collaborators                                              *)
(* ===================================================================== *)

(** Instances of the parameters, used to run the wizards on concrete
    sessions. *)
Module Concrete.

Definition is_upper (c : ascii) : bool :=
  (65 <=? nat_of_ascii c)%nat && (nat_of_ascii c <=? 90)%nat.

Definition is_lower (c : ascii) : bool :=
  (97 <=? nat_of_ascii c)%nat && (nat_of_ascii c <=? 122)%nat.

Definition to_lower (c : ascii) : ascii :=
  if is_upper c then ascii_of_nat (nat_of_ascii c + 32) else c.

Definition to_upper (c : ascii) : ascii :=
  if is_lower c then ascii_of_nat (nat_of_ascii c - 32) else c.

(** The delimiter set of [normalize]: blank, dash, underscore and dot. *)
Definition delimiters : list ascii :=
  [ascii_of_nat 32; ascii_of_nat 45; ascii_of_nat 95; ascii_of_nat 46].

Definition is_delimiter (c : ascii) : bool :=
  existsb (Ascii.eqb c) delimiters.

(** Modelled from the spec: [normalizeStringByDelimiter] of [utils/misc],
    which is not part of the wizard.  It lower-cases the display name and
    replaces every run of delimiter characters with one separator. *)
Fixpoint normalize_from (in_run : bool) (sep value : string) : string :=
  match value with
  | EmptyString => EmptyString
  | String c rest =>
    if is_delimiter c
    then if in_run then normalize_from true sep rest
         else sep +:+ normalize_from true sep rest
    else String (to_lower c) (normalize_from false sep rest)
  end.

Definition normalize (value sep : string) : string :=
  normalize_from false sep value.

Definition capitalize (s : string) : string :=
  match s with
  | EmptyString => EmptyString
  | String c rest => String (to_upper c) rest
  end.

(** Modelled from the spec: [toPascalCase] of [utils/misc], which is not
    part of the wizard.  It pascal-cases a slug: every dash-separated
    segment is capitalized and the segments are concatenated. *)
Definition pascal (slug : string) : string :=
  String.concat "" (capitalize <$> split_on "-" slug).

#[export] Instance misc : Misc := {|
  normalizeStringByDelimiter := normalize;
  toPascalCase := pascal;
  sonarwhalPackage_version := "1.10.1"
|}.

(** [normalizeString] of Node's [path]: the segments of a path without
    the empty ones and the dots, a double dot removing the segment before
    it ([kept] holds the segments kept so far, last first). *)
Definition normalize_step (absolute : bool) (kept : list string) (seg : string)
  : list string :=
  if String.eqb seg "" || String.eqb seg "." then kept
  else if String.eqb seg ".."
       then match kept with
            | top :: below => if String.eqb top ".." then seg :: kept else below
            | [] => if absolute then [] else [seg]
            end
       else seg :: kept.

Definition ends_with_slash (p : string) : bool :=
  match rev (chars p) with
  | c :: _ => Ascii.eqb c "/"
  | [] => false
  end.

(** [path.normalize] (POSIX). *)
Definition path_normalize (p : string) : string :=
  match p with
  | EmptyString => "."
  | String c _ =>
    let absolute := Ascii.eqb c "/" in
    let body := join "/" (rev (foldl (normalize_step absolute) [] (split_on "/" p))) in
    match body with
    | EmptyString => if absolute then "/" else if ends_with_slash p then "./" else "."
    | _ => (if absolute then "/" else "")
           +:+ body +:+ (if ends_with_slash p then "/" else "")
    end
  end.

(** [path.join] (POSIX): the segments that are not empty, joined by a
    slash and normalized. *)
Definition join_paths (segments : list string) : string :=
  match join "/" (filter (λ seg, seg ≠ "") segments) with
  | EmptyString => "."
  | joined => path_normalize joined
  end.

Fixpoint drop_while {A} (test : A → bool) (l : list A) : list A :=
  match l with
  | [] => []
  | x :: l' => if test x then drop_while test l' else l
  end.

(** [path.dirname] (POSIX): the path up to the last slash that has a
    segment after it, the slashes that end the path being ignored. *)
Definition dirname (p : string) : string :=
  match p with
  | EmptyString => "."
  | String c rest =>
    let has_root := Ascii.eqb c "/" in
    let scanned :=
      drop_while (λ a, negb (Ascii.eqb a "/"))
                 (drop_while (λ a, Ascii.eqb a "/") (rev (chars rest))) in
    match scanned with
    | [] => if has_root then "/" else "."
    | _ :: before =>
      match before with
      | [] => if has_root then "//" else String c EmptyString
      | _ => String c (string_of_list_ascii (rev before))
      end
    end
  end.

#[export] Instance node : Node := {|
  path_join := join_paths;
  path_dirname := dirname;
  process_cwd := "/work/packages";
  module_dirname := "/sonarwhal/dist/src/lib/cli/wizards"
|}.

(** Every call succeeds; a template renders to its own text. *)
Definition healthy (official : bool) : NewRuleWizard.Effects := {|
  NewRuleWizard.isOfficial := λ _, Ok official;
  NewRuleWizard.fs_copy := λ _ _ _, Ok tt;
  NewRuleWizard.readFileAsync := λ _ p, Ok ("template " +:+ p);
  NewRuleWizard.Handlebars_compile := λ _ content _, Ok content;
  NewRuleWizard.mkdirp := λ _ _, Ok tt;
  NewRuleWizard.writeFileAsync := λ _ _ _, Ok tt;
  NewRuleWizard.settles_first := λ _, false;
  NewRuleWizard.outlives := λ _, false
|}.

Definition denied : Error := Rejected "EACCES: permission denied".






(** What [healthy] and [read_only] render the index template to. *)
Definition index_template : string :=
  "template /sonarwhal/dist/src/lib/cli/wizards/templates/new-rule/index.ts.hbs".

(** The answers of the scenario of an official single rule. *)
Definition no_https : Answers.t := {|
  Answers.multi := Some false;
  Answers.name := "no-https";
  Answers.description := "desc";
  Answers.category := Some "security";
  Answers.useCase := Some "request";
  Answers.elementType := None;
  Answers.scope := Some "any";
  Answers.again := None
|}.

(** A package round and three rule rounds, the third repeating the first. *)
Definition package_round : Answers.t := {|
  Answers.multi := Some true;
  Answers.name := "Web Checks";
  Answers.description := "Checks for the web";
  Answers.category := None;
  Answers.useCase := None;
  Answers.elementType := None;
  Answers.scope := None;
  Answers.again := None
|}.

Definition rule_round (name useCase : string) (again : bool) : Answers.t := {|
  Answers.multi := None;
  Answers.name := name;
  Answers.description := "Description for " +:+ name;
  Answers.category := Some "security";
  Answers.useCase := Some useCase;
  Answers.elementType := None;
  Answers.scope := Some "any";
  Answers.again := Some again
|}.

(** A rule round whose description is given. *)
Definition described (description : string) : Answers.t := {|
  Answers.multi := None;
  Answers.name := "quoted";
  Answers.description := description;
  Answers.category := Some "security";
  Answers.useCase := Some "dom";
  Answers.elementType := Some "div";
  Answers.scope := Some "any";
  Answers.again := Some false
|}.

(** A round without its continue signal: the item itself. *)
Definition item_of (round : Answers.t) : Answers.t := {|
  Answers.multi := Answers.multi round;
  Answers.name := Answers.name round;
  Answers.description := Answers.description round;
  Answers.category := Answers.category round;
  Answers.useCase := Answers.useCase round;
  Answers.elementType := Answers.elementType round;
  Answers.scope := Answers.scope round;
  Answers.again := None
|}.

(** The collaborators of the [init] wizard: nothing is published, a few
    resources are installed, and every call succeeds. *)
Definition registry (published : list Init.NpmPackage) : Init.Effects := {|
  Init.getOfficialPackages := λ _ _, Ok published;
  Init.getInstalledResources := λ type,
    match type with
    | ResourceType.connector => ["jsdom"]
    | ResourceType.formatter => ["summary"]
    | ResourceType.parser => ["typescript-config"]
    | ResourceType.rule => ["axe"; "no-http"]
    | ResourceType.configuration => []
    end;
  Init.getCoreResources := λ _, [];
  Init.generateBrowserslistConfig := λ _, Ok ["defaults"];
  Init.fs_writeFile := λ _ _ _, Ok tt;
  Init.installPackages := λ _ _, Ok tt
|}.

Definition choose (configType : string) : Init.Answers.t := {|
  Init.Answers.configType := configType;
  Init.Answers.configuration := "";
  Init.Answers.connector := "";
  Init.Answers.formatter := "";
  Init.Answers.rules := [];
  Init.Answers.parsers := None
|}.

Definition custom_answers : Init.Answers.t := {|
  Init.Answers.configType := "";
  Init.Answers.configuration := "";
  Init.Answers.connector := "jsdom";
  Init.Answers.formatter := "summary";
  Init.Answers.rules := ["axe"];
  Init.Answers.parsers := Some ["typescript-config"]
|}.

End Concrete.

(** The closed set of usage tags: the keys of [events]. *)
Definition usage_tags : list string :=
  ["dom"; "request"; "thirdPartyService"; "jsInjection"].


(* ===================================================================== *)
(** * wizards/init: reading a trace                                       *)
(* ===================================================================== *)

Module InitTrace.
Import Init.

(** The error an event records, if the call it records failed. *)
Definition failed (ev : Event) : option Error :=
  match ev with
  | EvPrompt _ r => is_throw r
  | EvGetOfficialPackages _ r => is_throw r
  | EvBrowserslist r => is_throw r
  | EvWriteFile _ _ r => is_throw r
  | EvInstallPackages _ r => is_throw r
  | EvDebug _ | EvLog _ | EvLogError _ => None
  end.

(** The calls of [fs.writeFile] of a trace: path, object and outcome. *)
Definition config_writes (t : list Event) : list (string * Json * Result unit) :=
  omap (λ ev, match ev with
              | EvWriteFile filePath data r => Some (filePath, data, r)
              | _ => None
              end) t.

(** The error messages a trace has logged. *)
Definition errors_logged (t : list Event) : list string :=
  omap (λ ev, match ev with
              | EvLogError msg => Some msg
              | _ => None
              end) t.

(** The message of [anyResources] for a resource type. *)
Definition missing_message (type : ResourceType.t) : string :=
  "Couldn't find any installed " +:+ ResourceType.value type
  +:+ "s. Visit https://www.npmjs.com/search?q=%40sonarwhal%2F"
  +:+ ResourceType.value type +:+ ".".

End InitTrace.


(** The use case of a round can be built on: it is one of the four keys of
    [events]. *)
Definition valid_useCase (round : Answers.t) : Prop :=
  ∃ tag, Answers.useCase round = Some tag ∧ tag ∈ usage_tags.

(* ===================================================================== *)
(** * wizards/new-rule: the questions                                     *)
(* ===================================================================== *)

Module Questions.

(** List of different use cases of a rule: the label and the value of each
    choice of the [useCase] question. *)
Definition useCases : list (string * string) :=
  [ ("DOM", "dom");
    ("Resource Request", "request");
    ("Third Party Service", "thirdPartyService");
    ("JS injection", "jsInjection") ].

(** White space and line terminators of JavaScript, for strings whose
    characters are code units below 256: tab, line feed, vertical tab,
    form feed, carriage return, space and no-break space. *)
Definition is_whitespace (c : ascii) : bool :=
  existsb (Nat.eqb (nat_of_ascii c)) [9; 10; 11; 12; 13; 32; 160]%nat.

Fixpoint trim_start (s : string) : string :=
  match s with
  | EmptyString => EmptyString
  | String c rest => if is_whitespace c then trim_start rest else s
  end.

Fixpoint trim_end (s : string) : string :=
  match s with
  | EmptyString => EmptyString
  | String c rest =>
    match trim_end rest with
    | EmptyString => if is_whitespace c then EmptyString else String c EmptyString
    | kept => String c kept
    end
  end.

(** [value.trim()]. *)
Definition trim (value : string) : string := trim_end (trim_start value).

(** The validation of the free-text questions: [value.trim() !== '']. *)
Definition notEmpty (value : string) : bool :=
  negb (String.eqb (trim value) EmptyString).

End Questions.


(* ===================================================================== *)
(** * wizards/new-rule: reading a trace                                   *)
(* ===================================================================== *)

Module NewRuleTrace.
Import NewRuleWizard.

(** The events of the dialogue with the operator and of [isOfficial]. *)
Definition is_dialogue (ev : Event) : bool :=
  match ev with
  | EvPrompt _ _ | EvIsOfficial _ => true
  | _ => false
  end.

(** The events of the generation: copying the static files, reading and
    rendering templates, creating directories and writing files. *)
Definition is_generation (ev : Event) : bool :=
  match ev with
  | EvCopy _ _ _ | EvReadFile _ _ | EvRender _ _ _
  | EvMkdirp _ _ | EvWriteFile _ _ _ => true
  | _ => false
  end.

(** The templates a trace has read, with their text. *)
Definition reads (t : list Event) : list (string * string) :=
  omap (λ ev, match ev with
              | EvReadFile filePath (Ok content) => Some (filePath, content)
              | _ => None
              end) t.

(** The renderings of a trace: template text, data and rendered text. *)
Definition renders (t : list Event) : list (string * TemplateData * string) :=
  omap (λ ev, match ev with
              | EvRender content data (Ok text) => Some (content, data, text)
              | _ => None
              end) t.

(** The files a trace has written, with their text. *)
Definition writes (t : list Event) : list (string * string) :=
  omap (λ ev, match ev with
              | EvWriteFile path content (Ok _) => Some (path, content)
              | _ => None
              end) t.

(** The dialogue of a run that has collected [results], [official] and
    the rule rounds [rules]. *)
Definition dialogue_of (results : Answers.t) (official : bool)
    (rules : list Answers.t) : list Event :=
  EvPrompt QuestionsType.main (Ok results)
  :: EvIsOfficial (Ok official)
  :: ((λ round, EvPrompt QuestionsType.rule (Ok round)) <$> rules).

(** The events of a [copyFiles] that succeeds. *)
Definition copy_events (origin destination : string) : list Event :=
  [ EvLog ("Creating new rule in " +:+ destination);
    EvCopy origin destination (Ok tt);
    EvLog "External files copied" ].

Section trace.
Context {N : Node} {M : Misc}.

(** The data each file of the manifest is rendered with: the package for
    the common files, the rule for the files of a rule. *)
Definition manifest_data (dest : string) (data : RulePackage.t)
  : list TemplateData :=
  ((λ _, DataPackage data) <$> commonFiles dest data)
  ++ (RulePackage.rules data ≫= λ rule, (λ _, DataRule rule) <$> ruleFiles dest data rule).

(** The static files copied for a package: the files of the packages that
    are not official first, when the package is not official, then the
    files of every package. *)
Definition static_copies (pkg : RulePackage.t) : list Event :=
  (if negb (RulePackage.official pkg)
   then copy_events (path_join [module_dirname; "no-official-files"])
          (RulePackage.destination pkg)
   else [])
  ++ copy_events (path_join [module_dirname; "files"]) (RulePackage.destination pkg).

(** Every write of [t] goes to a directory that is in [made] or that an
    earlier [mkdirp] of [t] has created. *)
Fixpoint dirs_ready (made : list string) (t : list Event) : Prop :=
  match t with
  | [] => True
  | EvMkdirp dir (Ok _) :: t' => dirs_ready (dir :: made) t'
  | EvWriteFile path _ _ :: t' => path_dirname path ∈ made ∧ dirs_ready made t'
  | _ :: t' => dirs_ready made t'
  end.

(** On success, the events [t] read the templates [rs] and write the files
    [ws], in order. *)
Definition reads_writes {A} (rs ws : list string) (r : Result A)
    (t : list Event) : Prop :=
  succeeded r → templates_read t = rs ∧ written_files t = ws.

(** On success, the events [t] read the templates [rd] in that order,
    make the renderings [rn], in any order, and write the files [wr] in
    that order. *)
Definition flows {A} (rd : list (string * string))
    (rn : list (string * TemplateData * string)) (wr : list (string * string))
    (r : Result A) (t : list Event) : Prop :=
  succeeded r → reads t = rd ∧ renders t ≡ₚ rn ∧ writes t = wr.

(** On success, the events [t] carry each file of [files] through the
    pipeline: the templates of the files are read, in the order of
    [files]; the text read for a file is rendered with the data of the
    file (the renderings come in any order: those of the two files of a
    rule follow the order in which the two reads settle); and the text
    rendered for a file is written to the destination of the file, in the
    order of [files]. *)
Definition piped {A} (files : list File) (data : list TemplateData)
    (r : Result A) (t : list Event) : Prop :=
  succeeded r →
  ∃ contents texts,
    length data = length files ∧
    length contents = length files ∧
    length texts = length files ∧
    reads t = zip (path <$> files) contents ∧
    renders t ≡ₚ zip (zip contents data) texts ∧
    writes t = zip (destination <$> files) texts.

(** What the generation keeps, whatever its outcome: it does not talk to
    the operator, it writes into directories it has created, and on
    success it has piped its files. *)
Definition generates {A} (files : list File) (data : list TemplateData)
    (r : Result A) (t : list Event) : Prop :=
  Forall (λ ev, is_dialogue ev = false) t ∧
  dirs_ready [] t ∧
  piped files data r t.

End trace.
End NewRuleTrace.

(* ===================================================================== *)
(** * More concrete sessions                                              *)
(* ===================================================================== *)

Module Sessions.

(** A configuration package of the registry, and the answer that picks
    it. *)
Definition web_recommended : Init.NpmPackage :=
  {| Init.name := "@sonarwhal/configuration-web-recommended" |}.

Definition pick_web_recommended : Init.Answers.t := {|
  Init.Answers.configType := "";
  Init.Answers.configuration := "@sonarwhal/configuration-web-recommended";
  Init.Answers.connector := "";
  Init.Answers.formatter := "";
  Init.Answers.rules := [];
  Init.Answers.parsers := None
|}.

(** The object [init] writes for the custom answers of [Concrete]. *)
Definition custom_object : Json :=
  JObject [
    ("browserslist", JArray [JString "defaults"]);
    ("connector", JObject [ ("name", JString "jsdom");
                            ("options", JObject [("waitFor", JNumber 1000)]) ]);
    ("extends", JArray []);
    ("formatters", JArray [JString "summary"]);
    ("ignoredUrls", JArray []);
    ("rules", JObject [("axe", JString "error")]);
    ("rulesTimeout", JNumber 120000) ].

End Sessions.

(* ===================================================================== *)
(** * Tactics                                                             *)
(* ===================================================================== *)

(** Unfolds the primitive operations of a task and splits on the outcome
    of every external call, then names the events that were added. *)
Ltac split_outcomes :=
  repeat (cbn [trace pending late fst snd start resume awaited];
          match goal with
          | |- context [NewRuleWizard.isOfficial ?h] =>
            destruct (NewRuleWizard.isOfficial h)
          | |- context [NewRuleWizard.fs_copy ?h ?o ?d] =>
            destruct (NewRuleWizard.fs_copy h o d)
          | |- context [NewRuleWizard.readFileAsync ?h ?p] =>
            destruct (NewRuleWizard.readFileAsync h p)
          | |- context [NewRuleWizard.Handlebars_compile ?h ?c ?d] =>
            destruct (NewRuleWizard.Handlebars_compile h c d)
          | |- context [NewRuleWizard.mkdirp ?h ?d] =>
            destruct (NewRuleWizard.mkdirp h d)
          | |- context [NewRuleWizard.writeFileAsync ?h ?p ?c] =>
            destruct (NewRuleWizard.writeFileAsync h p c)
          | |- context [NewRuleWizard.settles_first ?h] =>
            destruct (NewRuleWizard.settles_first h)
          | |- context [NewRuleWizard.outlives ?h] =>
            destruct (NewRuleWizard.outlives h)
          end);
  cbn [trace pending late fst snd start resume awaited].

Ltac run_unfold :=
  unfold NewRuleWizard.compileTemplate, NewRuleWizard.mkdirpAsync,
    NewRuleWizard.writeFile, NewRuleWizard.copyFiles,
    NewRuleWizard.Promise_all, all2, abandon, await, calling,
    bind, try_catch, call, emit, throw, lift, ret.

Ltac run_cases :=
  intros ?w;
  run_unfold;
  split_outcomes;
  eexists; (split; [by rewrite <- ?app_assoc|]); cbn.

(** The same, for the property that a run stops at its first failure. *)
Ltac stops_cases :=
  run_cases; unfold NewRuleWizard.stops_at_failure, NewRuleWizard.blames; cbn;
  try done;
  (split; [|reflexivity]);
  eexists; (split; [reflexivity|]);
  apply list_elem_of_In; simpl; tauto.

(** An operation that was left running adds one event, or none. *)
Ltac settles_cases :=
  intros ?h; unfold added; run_unfold; split_outcomes;
  rewrite ?drop_app_length, ?drop_all; reflexivity.

(** The same, for the property that a task leaves at most one operation
    running, and only when it fails. *)
Ltac quiet_cases :=
  intros ?w;
  run_unfold;
  split_outcomes;
  eexists; (split; [first [reflexivity | symmetry; apply app_nil_r]|]);
  unfold NewRuleWizard.leaves_quietly; cbn;
  (split; [by intros ?|]);
  (split; [lia|]);
  repeat constructor; settles_cases.

(** Splits on the scrutinee of every match of the goal that is not itself
    a match: the script, the outcomes of the external calls, the tests. *)
Ltac split_matches :=
  repeat (cbn [trace pending late fst snd Init.config Init.packages negb];
          match goal with
          | |- context [match ?x with _ => _ end] =>
            lazymatch x with
            | context [match _ with _ => _ end] => fail
            | _ => destruct x eqn:?
            end
          end);
  cbn [trace pending late fst snd Init.config Init.packages negb].

(** Unfolds the [init] wizard down to the primitive operations. *)
Ltac init_unfold :=
  unfold Init.init, Init.extendConfig, Init.customConfig, Init.installExtended,
    Init.anyResources, fresh, bind, ask, call, emit, lift, ret.

(** Goes through the members of a concrete list, keeping those the
    hypothesis does not exclude. *)
Ltac members H :=
  repeat (apply elem_of_cons in H as [H|H]; [try discriminate H|]);
  try (by apply elem_of_nil in H).

(** Splits on the outcomes of a step of the generation and checks what the
    step keeps. *)
Ltac generates_cases :=
  run_cases; unfold NewRuleTrace.generates, NewRuleTrace.piped;
  (split; [repeat constructor|]);
  (split; [cbn; repeat split; apply list_elem_of_In; simpl; tauto|]);
  cbn; first [by intros [] | intros _; eexists [_], [_]; by repeat split].

(* ===================================================================== *)
(** * Reasoning about the events a task adds                              *)
(* ===================================================================== *)

Section emits.
Context {Ev Ans : Type}.
Implicit Types (w : World Ev Ans) (t : list Ev).

Lemma emits_ret {A} (a : A) (P : Result A → list Ev → Prop) :
  P (Ok a) [] → emits (Ans := Ans) (ret a) P.
Proof. intros HP w. exists []. by rewrite app_nil_r. Qed.

Lemma emits_throw {A} (e : Error) (P : Result A → list Ev → Prop) :
  P (Throw e) [] → emits (Ans := Ans) (throw e) P.
Proof. intros HP w. exists []. by rewrite app_nil_r. Qed.





Lemma emits_bind {A B} (m : Task Ev Ans A) (k : A → Task Ev Ans B)
    (Q : Result A → list Ev → Prop) (R : A → Result B → list Ev → Prop)
    (P : Result B → list Ev → Prop) :
  emits m Q →
  (∀ a, emits (k a) (R a)) →
  (∀ e t, Q (Throw e) t → P (Throw e) t) →
  (∀ a t1 r t2, Q (Ok a) t1 → R a r t2 → P r (t1 ++ t2)) →
  emits (bind m k) P.
Proof.
  intros Hm Hk Hthrow Hseq w. unfold bind.
  destruct (Hm w) as (t1 & Ht1 & HQ).
  destruct (m w) as [[a|e] w1]; simpl in *.
  - destruct (Hk a w1) as (t2 & Ht2 & HR).
    exists (t1 ++ t2). rewrite Ht2, Ht1, app_assoc. eauto.
  - exists t1. eauto.
Qed.

Lemma emits_try_catch {A} (m : Task Ev Ans A) (h : Error → Task Ev Ans A)
    (Q : Result A → list Ev → Prop) (R : Error → Result A → list Ev → Prop)
    (P : Result A → list Ev → Prop) :
  emits m Q →
  (∀ e, emits (h e) (R e)) →
  (∀ a t, Q (Ok a) t → P (Ok a) t) →
  (∀ e t1 r t2, Q (Throw e) t1 → R e r t2 → P r (t1 ++ t2)) →
  emits (try_catch m h) P.
Proof.
  intros Hm Hh Hok Hcatch w. unfold try_catch.
  destruct (Hm w) as (t1 & Ht1 & HQ).
  destruct (m w) as [[a|e] w1]; simpl in *.
  - exists t1. eauto.
  - destruct (Hh e w1) as (t2 & Ht2 & HR).
    exists (t1 ++ t2). rewrite Ht2, Ht1, app_assoc. eauto.
Qed.

Lemma emits_weaken {A} (m : Task Ev Ans A) (P Q : Result A → list Ev → Prop) :
  emits m P → (∀ r t, P r t → Q r t) → emits m Q.
Proof.
  intros Hm HPQ w. destruct (Hm w) as (t & Ht & HP). eauto.
Qed.

Lemma emits_and {A} (m : Task Ev Ans A) (P Q : Result A → list Ev → Prop) :
  emits m P → emits m Q → emits m (λ r t, P r t ∧ Q r t).
Proof.
  intros HmP HmQ w.
  destruct (HmP w) as (t & Ht & HP). destruct (HmQ w) as (t' & Ht' & HQ).
  assert (t' = t) as -> by (eapply app_inv_head; by rewrite <- Ht, <- Ht').
  eauto.
Qed.

(** A loop whose body keeps a property of the added events that is closed
    under concatenation. *)
Lemma emits_for_each {A} (xs : list A) (body : A → Task Ev Ans unit)
    (Q : A → Result unit → list Ev → Prop)
    (P : list A → Result unit → list Ev → Prop) :
  (∀ x, emits (body x) (Q x)) →
  P [] (Ok tt) [] →
  (∀ x xs e t, Q x (Throw e) t → P (x :: xs) (Throw e) t) →
  (∀ x xs u t1 r t2, Q x (Ok u) t1 → P xs r t2 → P (x :: xs) r (t1 ++ t2)) →
  emits (for_each xs body) (P xs).
Proof.
  intros Hbody Hnil Hthrow Hcons.
  induction xs as [|x xs IH]; simpl.
  - by apply emits_ret.
  - apply (emits_bind _ _ (Q x) (λ _, P xs)); eauto.
Qed.

End emits.

(* ===================================================================== *)
(** * Reasoning about the operations a task leaves running               *)
(* ===================================================================== *)

Section leaves.
Context {Ev Ans : Type}.
Implicit Types (w : World Ev Ans) (l : list (list Ev → list Ev)).

Lemma leaves_ret {A} (a : A) (P : Result A → list (list Ev → list Ev) → Prop) :
  P (Ok a) [] → leaves (Ans := Ans) (ret a) P.
Proof. intros HP w. exists []. by rewrite app_nil_r. Qed.

Lemma leaves_lift {A} (r : Result A)
    (P : Result A → list (list Ev → list Ev) → Prop) :
  P r [] → leaves (Ans := Ans) (lift r) P.
Proof. intros HP w. exists []. by rewrite app_nil_r. Qed.

Lemma leaves_emit (ev : Ev) (P : Result unit → list (list Ev → list Ev) → Prop) :
  P (Ok tt) [] → leaves (Ans := Ans) (emit ev) P.
Proof. intros HP w. exists []. by rewrite app_nil_r. Qed.

Lemma leaves_call {A} (outcome : list Ev → Result A) (record : Result A → Ev)
    (P : Result A → list (list Ev → list Ev) → Prop) :
  (∀ r, P r []) → leaves (Ans := Ans) (call outcome record) P.
Proof. intros HP w. exists []. by rewrite app_nil_r. Qed.

Lemma leaves_ask (record : Result Ans → Ev)
    (P : Result Ans → list (list Ev → list Ev) → Prop) :
  (∀ r, P r []) → leaves (ask record) P.
Proof.
  intros HP w. exists []. unfold ask.
  destruct (pending w) as [|r rest]; simpl; by rewrite app_nil_r.
Qed.

Lemma leaves_bind {A B} (m : Task Ev Ans A) (k : A → Task Ev Ans B)
    (Q : Result A → list (list Ev → list Ev) → Prop)
    (R : A → Result B → list (list Ev → list Ev) → Prop)
    (P : Result B → list (list Ev → list Ev) → Prop) :
  leaves m Q →
  (∀ a, leaves (k a) (R a)) →
  (∀ e l, Q (Throw e) l → P (Throw e) l) →
  (∀ a l1 r l2, Q (Ok a) l1 → R a r l2 → P r (l1 ++ l2)) →
  leaves (bind m k) P.
Proof.
  intros Hm Hk Hthrow Hseq w. unfold bind.
  destruct (Hm w) as (l1 & Hl1 & HQ).
  destruct (m w) as [[a|e] w1]; simpl in *.
  - destruct (Hk a w1) as (l2 & Hl2 & HR).
    exists (l1 ++ l2). rewrite Hl2, Hl1, app_assoc. eauto.
  - exists l1. eauto.
Qed.

End leaves.

(* ===================================================================== *)
(** * Properties of the entity builder                                    *)
(* ===================================================================== *)

Section entity_builder.
Context {N : Node} {M : Misc}.

Lemma events_lookup_tag (tag : string) (evs : list string) :
  events !! tag = Some evs → tag ∈ usage_tags.
Proof.
  unfold events. intros Hlook.
  apply elem_of_list_to_map_2 in Hlook.
  repeat (apply elem_of_cons in Hlook as [Heq|Hlook];
          [injection Heq as -> _; apply list_elem_of_In; simpl; tauto|]).
  by apply elem_of_nil in Hlook.
Qed.

Lemma getEventsByUseCase_Ok (useCase : option string) (evs : string) :
  getEventsByUseCase useCase = Ok evs →
  ∃ tag, useCase = Some tag ∧ tag ∈ usage_tags.
Proof.
  unfold getEventsByUseCase.
  destruct useCase as [tag|]; simpl; [|discriminate].
  destruct (events !! tag) as [l|] eqn:Hlook; [|discriminate].
  intros _. exists tag. split; [reflexivity|]. by eapply events_lookup_tag.
Qed.

Lemma constructor_Ok_inv (ruleData : Answers.t) (parent : option string)
    (item : NewRule.t) :
  NewRule.constructor ruleData parent = Ok item →
  ∃ tag, Answers.useCase ruleData = Some tag ∧ tag ∈ usage_tags ∧
    NewRule.useCase item =
      <[ tag := true ]> ({[ "dom" := false; "jsInjection" := false;
                            "request" := false; "thirdPartyService" := false ]}
                         : gmap string bool) ∧
    NewRule.normalizedName item =
      normalizeStringByDelimiter (Answers.name ruleData) "-" ∧
    NewRule.className item =
      (match parent with
       | Some p => if truthy_string p then toPascalCase p else ""
       | None => ""
       end) +:+ toPascalCase (NewRule.normalizedName item) +:+ "Rule" ∧
    NewRule.description item =
      Handlebars.escapeSafeString (Answers.description ruleData).
Proof.
  unfold NewRule.constructor.
  destruct (getEventsByUseCase (Answers.useCase ruleData)) as [evs|e] eqn:Hev;
    [|discriminate].
  apply getEventsByUseCase_Ok in Hev as (tag & Htag & Hin).
  rewrite Htag. intros [= <-]. exists tag. simpl. done.
Qed.

(** C4.  Every rule built by the [NewRule] constructor has exactly one of
    the four usage flags [dom], [request], [thirdPartyService] and
    [jsInjection] set to true, the flag of the answered use case, and the
    other three set to false; the object has no other key. *)
Theorem NewRule_exactly_one_usage_flag (ruleData : Answers.t)
    (parent : option string) (item : NewRule.t) :
  NewRule.constructor ruleData parent = Ok item →
  ∃ tag, tag ∈ usage_tags ∧
    Answers.useCase ruleData = Some tag ∧
    NewRule.useCase item !! tag = Some true ∧
    (∀ other, other ∈ usage_tags → other ≠ tag →
       NewRule.useCase item !! other = Some false) ∧
    dom (NewRule.useCase item) = list_to_set usage_tags.
Proof.
  intros Hc. apply constructor_Ok_inv in Hc as (tag & Htag & Hin & Huc & _).
  exists tag. rewrite Huc. split; [done|]. split; [done|].
  split; [apply lookup_insert_eq|]. split.
  - intros other Hother Hne. rewrite lookup_insert_ne; [|done].
    unfold usage_tags in Hother.
    repeat (apply elem_of_cons in Hother as [->|Hother]; [reflexivity|]).
    by apply elem_of_nil in Hother.
  - rewrite dom_insert_L. unfold usage_tags in *.
    repeat (apply elem_of_cons in Hin as [->|Hin]; [set_solver|]).
    by apply elem_of_nil in Hin.
Qed.

Lemma pushRules_Forall2 (rules : list Answers.t) (parent : string)
    (items : list NewRule.t) :
  RulePackage.pushRules rules parent = Ok items →
  Forall2 (λ r item, NewRule.constructor r (Some parent) = Ok item) rules items.
Proof.
  revert items. induction rules as [|r rest IH]; intros items; simpl.
  - intros [= <-]. constructor.
  - destruct (NewRule.constructor r (Some parent)) as [item|] eqn:Hitem;
      [|discriminate].
    destruct (RulePackage.pushRules rest parent) as [items'|]; [|discriminate].
    intros [= <-]. constructor; [done|]. by apply IH.
Qed.

Lemma RulePackage_constructor_inv (data : PackageData.t) (pkg : RulePackage.t) :
  RulePackage.constructor data = Ok pkg →
  let answers := PackageData.answers data in
  RulePackage.name pkg = Answers.name answers ∧
  RulePackage.isMulti pkg = Answers.multi answers ∧
  RulePackage.official pkg = PackageData.official data ∧
  RulePackage.normalizedName pkg =
    normalizeStringByDelimiter (Answers.name answers) "-" ∧
  RulePackage.packageName pkg =
    (if PackageData.official data then "@sonarwhal/" else "sonarwhal-")
    +:+ "rule-" +:+ RulePackage.normalizedName pkg ∧
  RulePackage.description pkg =
    Handlebars.escapeSafeString (Answers.description answers) ∧
  RulePackage.destination pkg =
    path_join [process_cwd; "rule-" +:+ RulePackage.normalizedName pkg] ∧
  (if truthy_bool (Answers.multi answers)
   then RulePackage.pushRules (PackageData.rules data)
          (RulePackage.normalizedName pkg) = Ok (RulePackage.rules pkg)
   else ∃ item, NewRule.constructor answers None = Ok item ∧
                RulePackage.rules pkg = [item]).
Proof.
  unfold RulePackage.constructor. simpl.
  destruct (truthy_bool (Answers.multi (PackageData.answers data))).
  - destruct (RulePackage.pushRules _ _) as [items|] eqn:Hpush; [|discriminate].
    intros [= <-]. simpl. done.
  - destruct (NewRule.constructor _ None) as [item|] eqn:Hitem; [|discriminate].
    intros [= <-]. simpl. repeat split; eauto.
Qed.

(** C6.  In a package built from answers whose [multi] is true, the class
    name of every rule is the pascal-cased normalized name of the package,
    followed by the pascal-cased normalized name of the rule and [Rule];
    the rules are those of the answer rounds, in order.  [toPascalCase] is
    a parameter; that it maps the empty string to the empty string is
    assumed of it. *)
Theorem multi_className_has_package_prefix (data : PackageData.t)
    (pkg : RulePackage.t) :
  toPascalCase "" = "" →
  truthy_bool (Answers.multi (PackageData.answers data)) = true →
  RulePackage.constructor data = Ok pkg →
  Forall (λ item,
            NewRule.className item =
              toPascalCase (RulePackage.normalizedName pkg)
              +:+ toPascalCase (NewRule.normalizedName item) +:+ "Rule" ∧
            NewRule.parentName item = Some (RulePackage.normalizedName pkg))
         (RulePackage.rules pkg) ∧
  NewRule.name <$> RulePackage.rules pkg = Answers.name <$> PackageData.rules data.
Proof.
  intros Hempty Hmulti Hc.
  apply RulePackage_constructor_inv in Hc as (_ & _ & _ & _ & _ & _ & _ & Hrules).
  simpl in Hrules. rewrite Hmulti in Hrules.
  apply pushRules_Forall2 in Hrules.
  generalize dependent (RulePackage.normalizedName pkg). intros parent Hrules.
  induction Hrules as [|r item rest items Hitem _ [IH1 IH2]]; [by split|].
  split; [constructor; [|done]|].
  - pose proof Hitem as Hparent.
    apply constructor_Ok_inv in Hitem as (_ & _ & _ & _ & _ & Hclass & _).
    rewrite Hclass. split.
    + destruct parent as [|c p]; simpl; [by rewrite Hempty|done].
    + unfold NewRule.constructor in Hparent.
      destruct (getEventsByUseCase _); [|discriminate].
      by injection Hparent as <-.
  - simpl. f_equal; [|done].
    unfold NewRule.constructor in Hitem.
    destruct (getEventsByUseCase _); [|discriminate]. by injection Hitem as <-.
Qed.

(** C7.  The package name computed by the [RulePackage] constructor is the
    official prefix ([@sonarwhal/]) when [official] is true and the
    community prefix ([sonarwhal-]) otherwise, followed by the kind segment
    [rule-] and the normalized display name. *)
Theorem packageName_is_prefix_kind_name (data : PackageData.t)
    (pkg : RulePackage.t) :
  RulePackage.constructor data = Ok pkg →
  RulePackage.normalizedName pkg =
    normalizeStringByDelimiter (Answers.name (PackageData.answers data)) "-" ∧
  RulePackage.packageName pkg =
    (if PackageData.official data then "@sonarwhal/" else "sonarwhal-")
    +:+ "rule-"
    +:+ normalizeStringByDelimiter (Answers.name (PackageData.answers data)) "-".
Proof.
  intros Hc.
  apply RulePackage_constructor_inv in Hc as (_ & _ & _ & Hn & Hp & _).
  rewrite Hp, Hn. done.
Qed.

End entity_builder.

(** The same properties on concrete sessions. *)
Section entity_builder_sessions.
Import Concrete.

Lemma NewRule_exactly_one_usage_flag_witness :
  ∃ item,
    NewRule.constructor Concrete.no_https None = Ok item ∧
    ∃ tag, tag ∈ usage_tags ∧
      Answers.useCase Concrete.no_https = Some tag ∧
      NewRule.useCase item !! tag = Some true ∧
      (∀ other, other ∈ usage_tags → other ≠ tag →
         NewRule.useCase item !! other = Some false) ∧
      dom (NewRule.useCase item) = list_to_set usage_tags.
Proof.
  eexists. split; [reflexivity|].
  apply (NewRule_exactly_one_usage_flag Concrete.no_https None).
  reflexivity.
Defined.

Lemma multi_className_has_package_prefix_witness :
  let data :=
    {| PackageData.answers := Concrete.package_round;
       PackageData.official := false;
       PackageData.rules := [Concrete.rule_round "Alt Text" "dom" true;
                             Concrete.rule_round "no-http" "request" false] |} in
  ∃ pkg,
    RulePackage.constructor data = Ok pkg ∧
    NewRule.className <$> RulePackage.rules pkg
      = ["WebChecksAltTextRule"; "WebChecksNoHttpRule"] ∧
    Forall (λ item,
              NewRule.className item =
                toPascalCase (RulePackage.normalizedName pkg)
                +:+ toPascalCase (NewRule.normalizedName item) +:+ "Rule" ∧
              NewRule.parentName item = Some (RulePackage.normalizedName pkg))
           (RulePackage.rules pkg) ∧
    NewRule.name <$> RulePackage.rules pkg = Answers.name <$> PackageData.rules data.
Proof.
  intros data. eexists. split; [reflexivity|]. split; [reflexivity|].
  apply (multi_className_has_package_prefix data); reflexivity.
Defined.

Lemma packageName_is_prefix_kind_name_witness :
  let data :=
    {| PackageData.answers := Concrete.no_https;
       PackageData.official := true;
       PackageData.rules := [] |} in
  ∃ pkg,
    RulePackage.constructor data = Ok pkg ∧
    RulePackage.packageName pkg = "@sonarwhal/rule-no-https" ∧
    RulePackage.normalizedName pkg =
      normalizeStringByDelimiter (Answers.name (PackageData.answers data)) "-" ∧
    RulePackage.packageName pkg =
      (if PackageData.official data then "@sonarwhal/" else "sonarwhal-")
      +:+ "rule-"
      +:+ normalizeStringByDelimiter (Answers.name (PackageData.answers data)) "-".
Proof.
  intros data. eexists. split; [reflexivity|]. split; [reflexivity|].
  apply (packageName_is_prefix_kind_name data). reflexivity.
Defined.

End entity_builder_sessions.

(* ===================================================================== *)
(** * Properties of [escapeSafeString]                                    *)
(* ===================================================================== *)

Section escaping.
Import Handlebars.

Lemma backtick_not_backslash : Ascii.eqb backtick backslash = false.
Proof. reflexivity. Qed.

Lemma escape_backticks_cons (c : ascii) (rest : string) :
  escape_backticks (String c rest) =
    if Ascii.eqb c backtick
    then String backslash (String c (escape_backticks rest))
    else String c (escape_backticks rest).
Proof. reflexivity. Qed.

(** Every backtick of the escaped text stands right after a backslash. *)
Lemma escape_backticks_preceded (str : string) (i : nat) :
  chars (escape_backticks str) !! i = Some backtick →
  ∃ j, i = S j ∧ chars (escape_backticks str) !! j = Some backslash.
Proof.
  revert i. induction str as [|c rest IH]; intros i; [done|].
  rewrite escape_backticks_cons.
  destruct (Ascii.eqb c backtick) eqn:Hc.
  - apply Ascii.eqb_eq in Hc as ->. destruct i as [|[|k]]; simpl.
    + discriminate.
    + intros _. by exists 0%nat.
    + intros Hk. apply IH in Hk as (j & -> & Hj). by exists (S (S j)).
  - destruct i as [|k]; simpl.
    + intros [= ->]. by rewrite Ascii.eqb_refl in Hc.
    + intros Hk. apply IH in Hk as (j & -> & Hj). by exists (S j).
Qed.

(** A description without a backslash never ends the template literal it
    is rendered into. *)
Lemma escape_backticks_keeps_literal_open (str : string) :
  Forall (λ c, c ≠ backslash) (chars str) →
  closes_literal (escape_backticks str) = false.
Proof.
  induction str as [|c rest IH]; [done|].
  simpl chars. intros Hall. apply Forall_cons in Hall as [Hc Hrest].
  rewrite escape_backticks_cons.
  destruct (Ascii.eqb c backtick) eqn:Hbt.
  - simpl. by apply IH.
  - simpl. apply Ascii.eqb_neq in Hc. rewrite Hc, Hbt. by apply IH.
Qed.

(** C8.  On the description made of a backslash followed by a backtick,
    [escapeSafeString] answers two backslashes followed by the backtick:
    the inserted backslash is itself escaped by the one before it, so the
    backtick is not escaped and ends the template literal the description
    is rendered into.  The rule built from a round with this description
    carries it to the template. *)
Theorem escapeSafeString_backslash_backtick :
  let description := String backslash (String backtick EmptyString) in
  toString (escapeSafeString description)
    = String backslash (String backslash (String backtick EmptyString)) ∧
  closes_literal (toString (escapeSafeString description)) = true ∧
  ∃ item,
    NewRule.constructor (M := Concrete.misc) (Concrete.described description) None
      = Ok item ∧
    NewRule.description item = escapeSafeString description ∧
    closes_literal (toString (NewRule.description item)) = true.
Proof.
  repeat split. eexists. split; [reflexivity|]. by split.
Qed.

Lemma escape_backticks_preceded_witness :
  ∃ j, 2%nat = S j ∧ chars (escape_backticks "a`b") !! j = Some backslash.
Proof. apply (escape_backticks_preceded "a`b" 2). reflexivity. Defined.

Lemma escape_backticks_keeps_literal_open_witness :
  closes_literal (escape_backticks "an `important` rule") = false.
Proof.
  apply (escape_backticks_keeps_literal_open "an `important` rule").
  repeat constructor; discriminate.
Defined.

End escaping.

(* ===================================================================== *)
(** * Properties of the repeat-collection loop                            *)
(* ===================================================================== *)

Section collecting.
Import NewRuleWizard.

Lemma askRules_script_rounds (rounds : list Answers.t) (last : Answers.t)
    (rest : list (Result Answers.t)) (rules : list Answers.t) (tr : list Event)
    (left : list (list Event → list Event)) :
  Forall (λ round, truthy_bool (Answers.again round) = true) rounds →
  truthy_bool (Answers.again last) = false →
  askRules_script ((Ok <$> rounds) ++ Ok last :: rest) rules tr left =
    (Ok (rules ++ rounds ++ [last]),
     {| pending := rest;
        trace := tr ++ ((λ round, EvPrompt QuestionsType.rule (Ok round))
                          <$> rounds ++ [last]);
        late := left |}).
Proof.
  intros Hrounds Hlast. revert rules tr.
  induction Hrounds as [|round rounds Hround _ IH]; intros rules tr; simpl.
  - by rewrite Hlast.
  - rewrite Hround, IH. by rewrite <- !app_assoc.
Qed.

(** C1, as amended.  [askRules] keeps the answer of every round, in the
    order of the rounds and without looking for duplicates, and stops after
    the first round whose [again] is not truthy: the rounds after it are
    not asked. *)
Theorem askRules_accumulates_every_round (rounds : list Answers.t)
    (last : Answers.t) (rest : list (Result Answers.t)) (tr : list Event)
    (left : list (list Event → list Event)) :
  Forall (λ round, truthy_bool (Answers.again round) = true) rounds →
  truthy_bool (Answers.again last) = false →
  askRules [] {| pending := (Ok <$> rounds) ++ Ok last :: rest;
                 trace := tr;
                 late := left |} =
    (Ok (rounds ++ [last]),
     {| pending := rest;
        trace := tr ++ ((λ round, EvPrompt QuestionsType.rule (Ok round))
                          <$> rounds ++ [last]);
        late := left |}).
Proof.
  intros Hrounds Hlast. unfold askRules. simpl.
  by rewrite (askRules_script_rounds rounds last rest [] tr left).
Qed.

(** Rounds A, B, A: the loop answers the three of them, A twice. *)
Lemma askRules_keeps_duplicate_rounds :
  let A := Concrete.rule_round "a" "dom" true in
  let B := Concrete.rule_round "b" "request" true in
  let A' := Concrete.rule_round "a" "dom" false in
  Concrete.item_of A' = Concrete.item_of A ∧
  fst (askRules [] (fresh [Ok A; Ok B; Ok A'])) = Ok [A; B; A'] ∧
  fst (askRules [] (fresh [Ok A; Ok B; Ok A'])) ≠ Ok [A; B] ∧
  ¬ NoDup (Concrete.item_of <$> [A; B; A']).
Proof.
  repeat split; [discriminate|].
  intros Hnodup. apply NoDup_cons in Hnodup as [Hnotin _].
  apply Hnotin. apply list_elem_of_In. simpl. tauto.
Qed.

Lemma askRules_accumulates_every_round_witness :
  let A := Concrete.rule_round "a" "dom" true in
  let B := Concrete.rule_round "b" "request" true in
  let A' := Concrete.rule_round "a" "dom" false in
  askRules [] {| pending := (Ok <$> [A; B]) ++ Ok A' :: [Ok B];
                 trace := [];
                 late := [] |} =
    (Ok ([A; B] ++ [A']),
     {| pending := [Ok B];
        trace := [] ++ ((λ round, EvPrompt QuestionsType.rule (Ok round))
                          <$> [A; B] ++ [A']);
        late := [] |}).
Proof.
  intros A B A'.
  apply (askRules_accumulates_every_round [A; B] A' [Ok B] [] []).
  - repeat constructor.
  - reflexivity.
Defined.

End collecting.

(* ===================================================================== *)
(** * Properties of the generation driver                                 *)
(* ===================================================================== *)

Section driver.
Import NewRuleWizard.
Context {N : Node} {M : Misc} {E : Effects}.

(** C10.  When the [newRule] flag of the options is false, [newRule]
    answers false at once: nothing is asked, rendered, copied or written,
    and the world is left as it was. *)
Theorem newRule_flag_off (actions : CLIOptions) (w : World Event Answers.t) :
  newRule_flag actions = false →
  newRule actions w = (Ok false, w).
Proof. intros Hflag. unfold newRule. by rewrite Hflag. Qed.

End driver.

Section driver_sessions.
Import NewRuleWizard Concrete.

Lemma newRule_flag_off_witness :
  newRule (E := healthy true) {| newRule_flag := false |} (fresh [Ok no_https])
    = (Ok false, fresh [Ok no_https]).
Proof.
  apply (newRule_flag_off (E := healthy true) {| newRule_flag := false |}).
  reflexivity.
Defined.

End driver_sessions.

(* ===================================================================== *)
(** * The files [generateRuleFiles] writes                                *)
(* ===================================================================== *)

Section manifest.
Import NewRuleWizard NewRuleTrace.
Context {N : Node} {M : Misc} {E : Effects}.

Lemma produces_app {A B} (f1 f2 : list File) (a : A) (r : Result B)
    (t1 t2 : list Event) :
  produces f1 (Ok a) t1 → produces f2 r t2 → produces (f1 ++ f2) r (t1 ++ t2).
Proof.
  intros H1 H2 Hr. destruct (H1 I) as [Hr1 Hw1]. destruct (H2 Hr) as [Hr2 Hw2].
  unfold templates_read, written_files in *.
  by rewrite !omap_app, !fmap_app, Hr1, Hr2, Hw1, Hw2.
Qed.

Lemma produces_throw {A} (files : list File) (e : Error) (t : list Event) :
  produces (A := A) files (Throw e) t.
Proof. intros []. Qed.

Lemma reads_writes_app {A B} (rs1 ws1 rs2 ws2 : list string) (a : A)
    (r : Result B) (t1 t2 : list Event) :
  reads_writes rs1 ws1 (Ok a) t1 → reads_writes rs2 ws2 r t2 →
  reads_writes (rs1 ++ rs2) (ws1 ++ ws2) r (t1 ++ t2).
Proof.
  intros H1 H2 Hr. destruct (H1 I) as [Hr1 Hw1]. destruct (H2 Hr) as [Hr2 Hw2].
  unfold templates_read, written_files in *.
  by rewrite !omap_app, Hr1, Hr2, Hw1, Hw2.
Qed.

Lemma bind_reads_writes {A B} (m : Wizard A) (k : A → Wizard B)
    (rs1 ws1 rs2 ws2 : list string) :
  emits m (reads_writes rs1 ws1) →
  (∀ a, emits (k a) (reads_writes rs2 ws2)) →
  emits (bind m k) (reads_writes (rs1 ++ rs2) (ws1 ++ ws2)).
Proof.
  intros Hm Hk.
  apply (emits_bind _ _ (reads_writes rs1 ws1) (λ _, reads_writes rs2 ws2));
    [done|done|by intros e t _ []|].
  intros a t1 r t2. apply reads_writes_app.
Qed.

Lemma compileTemplate_reads (filePath : string) (data : TemplateData) :
  emits (await (compileTemplate filePath data)) (reads_writes [filePath] []).
Proof. run_cases; by intros ?. Qed.

Lemma mkdirpAsync_reads (dir : string) :
  emits (await (mkdirpAsync dir)) (reads_writes [] []).
Proof. run_cases; by intros ?. Qed.

Lemma writeFile_writes (file content : string) :
  emits (await (writeFile file content)) (reads_writes [] [file]).
Proof. run_cases; by intros ?. Qed.

Lemma compileTemplates_read (path1 path2 : string) (data1 data2 : TemplateData) :
  emits (Promise_all (compileTemplate path1 data1) (compileTemplate path2 data2))
    (reads_writes [path1; path2] []).
Proof. run_cases; by intros ?. Qed.

Lemma mkdirpAsyncs_read (dir1 dir2 : string) :
  emits (Promise_all (mkdirpAsync dir1) (mkdirpAsync dir2)) (reads_writes [] []).
Proof. run_cases; by intros ?. Qed.

Lemma writeFiles_write (file1 content1 file2 content2 : string) :
  emits (Promise_all (writeFile file1 content1) (writeFile file2 content2))
    (reads_writes [] [file1; file2]).
Proof. run_cases; by intros ?. Qed.

Lemma generateCommonFile_produces (data : RulePackage.t) (file : File) :
  emits (generateCommonFile data file) (produces [file]).
Proof.
  unfold generateCommonFile.
  eapply (emits_weaken _ (reads_writes _ _)).
  { apply bind_reads_writes; [apply compileTemplate_reads|]. intros fileContent.
    apply bind_reads_writes; [apply mkdirpAsync_reads|]. intros _.
    apply writeFile_writes. }
  intros r t Hfiles. exact Hfiles.
Qed.

Lemma generateRuleFile_produces (dest : string) (data : RulePackage.t)
    (rule : NewRule.t) :
  emits (generateRuleFile dest data rule) (produces (ruleFiles dest data rule)).
Proof.
  unfold generateRuleFile, ruleFiles.
  destruct (truthy_bool (RulePackage.isMulti data)).
  - eapply (emits_weaken _ (reads_writes _ _)).
    { apply bind_reads_writes; [apply compileTemplates_read|]. intros contents.
      apply bind_reads_writes; [apply mkdirpAsyncs_read|]. intros _.
      apply bind_reads_writes; [apply writeFiles_write|]. intros _.
      apply bind_reads_writes; [apply compileTemplate_reads|]. intros docContent.
      apply bind_reads_writes; [apply mkdirpAsync_reads|]. intros _.
      apply writeFile_writes. }
    intros r t Hfiles. exact Hfiles.
  - eapply (emits_weaken _ (reads_writes _ _)).
    { apply bind_reads_writes; [apply compileTemplates_read|]. intros contents.
      apply bind_reads_writes; [apply mkdirpAsyncs_read|]. intros _.
      apply bind_reads_writes; [apply writeFiles_write|]. intros _.
      apply (emits_ret _ (reads_writes [] [])). by intros _. }
    intros r t Hfiles. exact Hfiles.
Qed.

Lemma for_each_produces {A} (xs : list A) (body : A → Wizard unit)
    (files : A → list File) :
  (∀ x, emits (body x) (produces (files x))) →
  emits (for_each xs body) (produces (xs ≫= files)).
Proof.
  intros Hbody.
  apply (emits_for_each xs body (λ x, produces (files x))
           (λ xs, produces (xs ≫= files))); [done|done|..].
  - intros. apply produces_throw.
  - intros x xs' u t1 r t2 H1 H2. simpl. by apply (produces_app _ _ u).
Qed.

(** On success, [generateRuleFiles] has read the templates and written the
    files of the manifest, in its order. *)
Lemma generateRuleFiles_produces (dest : string) (data : RulePackage.t) :
  emits (generateRuleFiles dest data) (produces (manifest dest data)).
Proof.
  unfold generateRuleFiles, manifest.
  apply (emits_bind _ _
           (produces (commonFiles dest data ≫= λ file, [file]))
           (λ _, produces (RulePackage.rules data ≫= ruleFiles dest data))).
  - apply for_each_produces, generateCommonFile_produces.
  - intros _. apply for_each_produces, generateRuleFile_produces.
  - intros. apply produces_throw.
  - intros [] t1 r t2 H1 H2.
    replace (commonFiles dest data) with (commonFiles dest data ≫= λ file, [file]) at 1.
    + by apply (produces_app _ _ tt).
    + generalize (commonFiles dest data). intros l.
      induction l as [|x l IH]; [done|]. cbn. by f_equal.
Qed.

(** Whatever the package, a successful [generateRuleFiles] has read the
    templates of the manifest and written its files, in the order of the
    manifest, and nothing else. *)
Theorem generateRuleFiles_writes_manifest (dest : string) (data : RulePackage.t)
    (w : World Event Answers.t) :
  succeeded (fst (generateRuleFiles dest data w)) →
  ∃ t, trace (snd (generateRuleFiles dest data w)) = trace w ++ t ∧
    templates_read t = path <$> manifest dest data ∧
    written_files t = destination <$> manifest dest data.
Proof.
  intros Hrun. destruct (generateRuleFiles_produces dest data w) as (t & Ht & Hfiles).
  exists t. split; [done|]. by apply Hfiles.
Qed.

(** C3.  For the package built from the answers of the official single
    rule [no-https] with use case [request], a successful
    [generateRuleFiles] writes six files: the four common ones (source
    index, README, tsconfig, package manifest) and the source and test
    files of the rule, with neither a documentation file nor a local
    [.sonarwhalrc], all under the join of the current working directory
    and [rule-no-https].  [normalizeStringByDelimiter] is a parameter; that
    it leaves [no-https] unchanged is assumed of it. *)
Theorem official_single_rule_files (w : World Event Answers.t)
    (pkg : RulePackage.t) :
  normalizeStringByDelimiter "no-https" "-" = "no-https" →
  RulePackage.constructor
    {| PackageData.answers := Concrete.no_https;
       PackageData.official := true;
       PackageData.rules := [] |} = Ok pkg →
  succeeded (fst (generateRuleFiles (RulePackage.destination pkg) pkg w)) →
  let dest := path_join [process_cwd; "rule-no-https"] in
  RulePackage.destination pkg = dest ∧
  ∃ t, trace (snd (generateRuleFiles dest pkg w)) = trace w ++ t ∧
    written_files t =
      [ path_join [dest; "src"; "index.ts"];
        path_join [dest; "README.md"];
        path_join [dest; "tsconfig.json"];
        path_join [dest; "package.json"];
        path_join [path_join [dest; "src"]; "no-https.ts"];
        path_join [path_join [dest; "tests"]; "no-https.ts"] ] ∧
    templates_read t =
      [ path_join [module_dirname; TEMPLATE_PATH; "index.ts.hbs"];
        path_join [module_dirname; TEMPLATE_PATH; "readme.md.hbs"];
        path_join [module_dirname; SHARED_TEMPLATE_PATH; "tsconfig.json.hbs"];
        path_join [module_dirname; SHARED_TEMPLATE_PATH; "package.hbs"];
        path_join [module_dirname; TEMPLATE_PATH; "rule.ts.hbs"];
        path_join [module_dirname; TEMPLATE_PATH; "tests.ts.hbs"] ].
Proof.
  intros Hnorm Hpkg Hrun dest.
  apply RulePackage_constructor_inv in Hpkg
    as (_ & Hmulti & Hofficial & Hname & _ & _ & Hdest & item & Hitem & Hrules).
  simpl in Hname, Hmulti, Hofficial. rewrite Hnorm in Hname.
  rewrite Hname in Hdest. change ("rule-" +:+ "no-https") with "rule-no-https" in Hdest.
  apply constructor_Ok_inv in Hitem as (_ & _ & _ & _ & Hitemname & _).
  simpl in Hitemname. rewrite Hnorm in Hitemname.
  rewrite Hdest in Hrun. fold dest in Hdest, Hrun. split; [done|].
  destruct (generateRuleFiles_produces dest pkg w) as (t & Ht & Hfiles).
  exists t. split; [done|]. destruct (Hfiles Hrun) as [Hread Hwritten].
  rewrite Hread, Hwritten. unfold manifest, commonFiles, ruleFiles.
  rewrite Hofficial, Hmulti, Hrules. cbn. by rewrite Hitemname.
Qed.

End manifest.

Section manifest_sessions.
Import NewRuleWizard Concrete.

Lemma official_single_rule_files_witness :
  ∃ pkg,
    RulePackage.constructor
      {| PackageData.answers := no_https;
         PackageData.official := true;
         PackageData.rules := [] |} = Ok pkg ∧
    let dest := "/work/packages/rule-no-https" in
    RulePackage.destination pkg = dest ∧
    ∃ t, trace (snd (generateRuleFiles (E := healthy true) dest pkg (fresh [])))
           = [] ++ t ∧
      written_files t =
        [ path_join [dest; "src"; "index.ts"];
          path_join [dest; "README.md"];
          path_join [dest; "tsconfig.json"];
          path_join [dest; "package.json"];
          path_join [path_join [dest; "src"]; "no-https.ts"];
          path_join [path_join [dest; "tests"]; "no-https.ts"] ] ∧
      templates_read t =
        [ path_join [module_dirname; TEMPLATE_PATH; "index.ts.hbs"];
          path_join [module_dirname; TEMPLATE_PATH; "readme.md.hbs"];
          path_join [module_dirname; SHARED_TEMPLATE_PATH; "tsconfig.json.hbs"];
          path_join [module_dirname; SHARED_TEMPLATE_PATH; "package.hbs"];
          path_join [module_dirname; TEMPLATE_PATH; "rule.ts.hbs"];
          path_join [module_dirname; TEMPLATE_PATH; "tests.ts.hbs"] ].
Proof.
  eexists. split; [reflexivity|].
  exact (official_single_rule_files (E := healthy true) (fresh []) _
           eq_refl eq_refl I).
Defined.

(** A community package of one rule: five common files, and the source and
    test files of the rule. *)
Lemma generateRuleFiles_writes_manifest_witness :
  ∃ pkg,
    RulePackage.constructor
      {| PackageData.answers := no_https;
         PackageData.official := false;
         PackageData.rules := [] |} = Ok pkg ∧
    length (manifest "/work/packages/rule-no-https" pkg) = 7%nat ∧
    ∃ t, trace (snd (generateRuleFiles (E := healthy false)
                       "/work/packages/rule-no-https" pkg (fresh [])))
           = [] ++ t ∧
      templates_read t = path <$> manifest "/work/packages/rule-no-https" pkg ∧
      written_files t = destination <$> manifest "/work/packages/rule-no-https" pkg.
Proof.
  eexists. split; [reflexivity|]. split; [reflexivity|].
  refine (generateRuleFiles_writes_manifest (E := healthy false) _ _ (fresh []) _).
  vm_compute. exact I.
Defined.

End manifest_sessions.

(* ===================================================================== *)
(** * Properties of the [init] wizard                                     *)
(* ===================================================================== *)

Section init.
Import Init.
Context {N : Node} {E : Effects}.

(** C5.  In every run of [init] whose lookup of the official configuration
    packages answers the empty list, the wizard answers false and neither
    writes a file nor installs a package. *)
Theorem init_without_configurations (script : list (Result Answers.t)) :
  EvGetOfficialPackages ResourceType.configuration (Ok [])
    ∈ trace (snd (init (fresh script))) →
  fst (init (fresh script)) = Ok false ∧
  Forall (λ ev, touches_disk ev = false) (trace (snd (init (fresh script)))).
Proof.
  unfold init, extendConfig, customConfig, installExtended, anyResources,
    fresh, bind, ask, call, emit, lift, ret.
  split_matches.
  all: intros Hin.
  all: try (repeat (apply elem_of_cons in Hin as [Hin|Hin]; [discriminate Hin|]);
            by apply elem_of_nil in Hin).
  all: try (split; [reflexivity|repeat constructor]).
Qed.

(** C9.  In a custom-configuration run in which parser resources are
    available and the operator selects one or more parsers, the questions
    of the second prompt include the [parsers] question and its answer is
    that selection, and yet no configuration object handed to
    [fs.writeFile] has a [parsers] field: the [parsers] answer is not
    copied into the configuration. *)
Theorem custom_config_has_no_parsers (initial results : Answers.t)
    (rest : list (Result Answers.t)) :
  Answers.configType initial ≠ "predefined" →
  getInstalledResources ResourceType.parser
    ++ getCoreResources ResourceType.parser ≠ [] →
  (∃ p ps, Answers.parsers results = Some (p :: ps)) →
  let run := init (fresh (Ok initial :: Ok results :: rest)) in
  (∀ questions r, EvPrompt questions r ∈ trace (snd run) →
     (questions = initialQuestion ∧ r = Ok initial) ∨
     ("parsers" ∈ q_name <$> questions ∧ r = Ok results)) ∧
  Forall (λ cfg, field "parsers" cfg = None) (written_configs (trace (snd run))).
Proof.
  intros Hcustom Hparsers Hselected.
  unfold init, extendConfig, customConfig, installExtended, anyResources,
    fresh, bind, ask, call, emit, lift, ret.
  cbn [pending trace].
  destruct (String.eqb (Answers.configType initial) "predefined") eqn:Htype;
    [by apply String.eqb_eq in Htype|].
  split_matches; try done.
  all: split; [|repeat constructor].
  all: intros questions r Hin.
  all: repeat (apply elem_of_cons in Hin as [Hin|Hin];
               [try discriminate Hin; injection Hin as -> ->|]).
  all: try (by apply elem_of_nil in Hin).
  all: try (by left).
  all: right; split; [|done]; apply list_elem_of_In; simpl; tauto.
Qed.

(** Whatever the session, a configuration object handed to [fs.writeFile]
    has no [parsers] field. *)
Lemma init_never_writes_parsers (script : list (Result Answers.t)) :
  Forall (λ cfg, field "parsers" cfg = None)
    (written_configs (trace (snd (init (fresh script))))).
Proof.
  unfold init, extendConfig, customConfig, installExtended, anyResources,
    fresh, bind, ask, call, emit, lift, ret.
  split_matches; repeat constructor.
Qed.

End init.

Section init_sessions.
Import Init Concrete.

Lemma init_without_configurations_witness :
  fst (init (E := registry []) (fresh [Ok (choose "predefined")])) = Ok false ∧
  Forall (λ ev, touches_disk ev = false)
    (trace (snd (init (E := registry []) (fresh [Ok (choose "predefined")])))).
Proof.
  apply (init_without_configurations (E := registry []) [Ok (choose "predefined")]).
  apply list_elem_of_In. simpl. tauto.
Defined.

Lemma custom_config_has_no_parsers_witness :
  written_configs
    (trace (snd (init (E := registry [])
                   (fresh (Ok (choose "custom") :: Ok custom_answers :: [])))))
  = [ JObject [
        ("browserslist", JArray [JString "defaults"]);
        ("connector", JObject [ ("name", JString "jsdom");
                                ("options", JObject [("waitFor", JNumber 1000)]) ]);
        ("extends", JArray []);
        ("formatters", JArray [JString "summary"]);
        ("ignoredUrls", JArray []);
        ("rules", JObject [("axe", JString "error")]);
        ("rulesTimeout", JNumber 120000) ] ] ∧
  let run := init (E := registry [])
               (fresh (Ok (choose "custom") :: Ok custom_answers :: [])) in
  (∀ questions r, EvPrompt questions r ∈ trace (snd run) →
     (questions = initialQuestion ∧ r = Ok (choose "custom")) ∨
     ("parsers" ∈ q_name <$> questions ∧ r = Ok custom_answers)) ∧
  Forall (λ cfg, field "parsers" cfg = None) (written_configs (trace (snd run))).
Proof.
  split; [reflexivity|].
  apply (custom_config_has_no_parsers (E := registry [])
           (choose "custom") custom_answers []).
  - discriminate.
  - discriminate.
  - by exists "typescript-config", [].
Defined.

End init_sessions.

(* ===================================================================== *)
(** * Failures of the generation driver                                   *)
(* ===================================================================== *)

Section failure.
Import NewRuleWizard.
Implicit Types (t pre post : list Event) (ev bad : Event).

Lemma first_failure_None t :
  first_failure t = None ↔ Forall (λ ev, failed ev = None) t.
Proof.
  induction t as [|ev t IH]; simpl; [by split|].
  destruct (failed ev) eqn:Hev.
  - split; [done|]. intros Hall. apply Forall_cons in Hall as [Hnone _]. congruence.
  - destruct (first_failure t) as [[[pre bad] post]|]; split; try done.
    + intros Hall. apply Forall_cons in Hall as [_ Hall]. by apply IH in Hall.
    + intros _. constructor; [done|]. by apply IH.
Qed.


Lemma first_failure_app t1 t2 :
  first_failure t1 = None →
  first_failure (t1 ++ t2) =
    match first_failure t2 with
    | Some (pre, bad, post) => Some (t1 ++ pre, bad, post)
    | None => None
    end.
Proof.
  induction t1 as [|ev t1 IH]; simpl.
  - intros _. by destruct (first_failure t2) as [[[pre bad] post]|].
  - destruct (failed ev); [done|].
    destruct (first_failure t1) as [[[pre bad] post]|]; [done|].
    intros _. rewrite IH; [|done].
    by destruct (first_failure t2) as [[[pre bad] post]|].
Qed.

Lemma stops_at_failure_Ok {A} (a : A) t :
  stops_at_failure (Ok a) t → first_failure t = None.
Proof.
  unfold stops_at_failure.
  destruct (first_failure t) as [[[pre bad] post]|] eqn:Hfirst; [|done].
  by intros [(e & He & _) _].
Qed.

Lemma stops_at_failure_app {A B} (a : A) (r : Result B) t1 t2 :
  stops_at_failure (Ok a) t1 → stops_at_failure r t2 →
  stops_at_failure r (t1 ++ t2).
Proof.
  intros H1 H2. apply stops_at_failure_Ok in H1.
  unfold stops_at_failure in *. rewrite (first_failure_app _ _ H1).
  by destruct (first_failure t2) as [[[pre bad] post]|].
Qed.


Lemma stops_at_failure_retype {A B} (e : Error) t :
  stops_at_failure (A := A) (Throw e) t → stops_at_failure (A := B) (Throw e) t.
Proof. done. Qed.

Context {N : Node} {M : Misc} {E : Effects}.

Lemma compileTemplate_stops (filePath : string) (data : TemplateData) :
  emits (await (compileTemplate filePath data)) stops_at_failure.
Proof. stops_cases. Qed.

Lemma mkdirpAsync_stops (dir : string) :
  emits (await (mkdirpAsync dir)) stops_at_failure.
Proof. stops_cases. Qed.

Lemma writeFile_stops (file content : string) :
  emits (await (writeFile file content)) stops_at_failure.
Proof. stops_cases. Qed.

Lemma compileTemplates_stop (path1 path2 : string) (data1 data2 : TemplateData) :
  emits (Promise_all (compileTemplate path1 data1) (compileTemplate path2 data2))
    stops_at_failure.
Proof. stops_cases. Qed.

Lemma mkdirpAsyncs_stop (dir1 dir2 : string) :
  emits (Promise_all (mkdirpAsync dir1) (mkdirpAsync dir2)) stops_at_failure.
Proof. stops_cases. Qed.

Lemma writeFiles_stop (file1 content1 file2 content2 : string) :
  emits (Promise_all (writeFile file1 content1) (writeFile file2 content2))
    stops_at_failure.
Proof. stops_cases. Qed.


Lemma bind_stops {A B} (m : Wizard A) (k : A → Wizard B) :
  emits m stops_at_failure →
  (∀ a, emits (k a) stops_at_failure) →
  emits (bind m k) stops_at_failure.
Proof.
  intros Hm Hk.
  apply (emits_bind _ _ stops_at_failure (λ _, stops_at_failure)); try done.
  intros a t1 r t2. apply stops_at_failure_app.
Qed.

Lemma for_each_stops {A} (xs : list A) (body : A → Wizard unit) :
  (∀ x, emits (body x) stops_at_failure) →
  emits (for_each xs body) stops_at_failure.
Proof.
  intros Hbody. induction xs as [|x xs IH]; simpl.
  - by apply emits_ret.
  - by apply bind_stops.
Qed.

Lemma generateCommonFile_stops (data : RulePackage.t) (file : File) :
  emits (generateCommonFile data file) stops_at_failure.
Proof.
  unfold generateCommonFile.
  apply bind_stops; [apply compileTemplate_stops|]. intros fileContent.
  apply bind_stops; [apply mkdirpAsync_stops|]. intros _.
  apply writeFile_stops.
Qed.

Lemma generateRuleFile_stops (dest : string) (data : RulePackage.t)
    (rule : NewRule.t) :
  emits (generateRuleFile dest data rule) stops_at_failure.
Proof.
  unfold generateRuleFile.
  apply bind_stops; [apply compileTemplates_stop|]. intros contents.
  apply bind_stops; [apply mkdirpAsyncs_stop|]. intros _.
  apply bind_stops; [apply writeFiles_stop|]. intros _.
  destruct (truthy_bool (RulePackage.isMulti data)); [|by apply emits_ret].
  apply bind_stops; [apply compileTemplate_stops|]. intros docContent.
  apply bind_stops; [apply mkdirpAsync_stops|]. intros _.
  apply writeFile_stops.
Qed.

Lemma generateRuleFiles_stops (dest : string) (data : RulePackage.t) :
  emits (generateRuleFiles dest data) stops_at_failure.
Proof.
  unfold generateRuleFiles. apply bind_stops.
  - apply for_each_stops, generateCommonFile_stops.
  - intros _. apply for_each_stops, generateRuleFile_stops.
Qed.

Lemma askRules_script_stops (script : list (Result Answers.t))
    (rules : list Answers.t) (tr : list Event)
    (left : list (list Event → list Event)) :
  ∃ t, trace (snd (askRules_script script rules tr left)) = tr ++ t ∧
       late (snd (askRules_script script rules tr left)) = left ∧
       stops_at_failure (fst (askRules_script script rules tr left)) t.
Proof.
  revert rules tr. induction script as [|[answer|e] rest IH]; intros rules tr; simpl.
  - eexists. split; [done|]. split; [done|].
    unfold stops_at_failure, blames. simpl. split; [|done].
    eexists. split; [done|]. by left.
  - destruct (truthy_bool (Answers.again answer)).
    + destruct (IH (rules ++ [answer])
                  (tr ++ [EvPrompt QuestionsType.rule (Ok answer)]))
        as (t & Ht & Hl & Hstops).
      exists (EvPrompt QuestionsType.rule (Ok answer) :: t).
      split; [by rewrite Ht, <- app_assoc|]. split; [done|].
      by apply (stops_at_failure_app tt _ [_] t).
    + eexists. split; [done|]. split; [done|]. by unfold stops_at_failure.
  - eexists. split; [done|]. split; [done|].
    unfold stops_at_failure, blames. simpl. split; [|done].
    eexists. split; [done|]. by left.
Qed.


Lemma askRules_leaves (rules : list Answers.t) :
  leaves (askRules rules) leaves_quietly.
Proof.
  intros w.
  destruct (askRules_script_stops (pending w) rules (trace w) (late w))
    as (t & _ & Hl & _).
  exists []. unfold askRules. rewrite Hl, app_nil_r.
  split; [done|]. split; [done|]. split; [simpl; lia|constructor].
Qed.


(** [newRule] never throws: whatever happens in its [try] block is caught,
    and the caller receives a boolean. *)
Lemma newRule_returns (actions : CLIOptions) (w : World Event Answers.t) :
  ∃ b, fst (newRule actions w) = Ok b.
Proof.
  unfold newRule, try_catch, newRule_catch, bind, emit, ret.
  destruct (negb (newRule_flag actions)); [by exists false|].
  destruct (newRule_try w) as [[b|e] w']; simpl; eauto.
Qed.

(** [newRule] with its flag set: the [try] block, and on a failure the two
    messages of the [catch] block and the answer false. *)
Lemma newRule_flag_on (w : World Event Answers.t) :
  newRule {| newRule_flag := true |} w =
    match newRule_try w with
    | (Ok b, w') => (Ok b, w')
    | (Throw e, w') =>
      (Ok false,
       {| pending := pending w';
          trace := trace w' ++ [EvLogError "Error trying to create new rule";
                                EvLogErrorValue e];
          late := late w' |})
    end.
Proof.
  unfold newRule, try_catch, newRule_catch, bind, emit, ret. simpl.
  destruct (newRule_try w) as [[b|e] w']; simpl; [done|].
  by rewrite <- app_assoc.
Qed.

Lemma bind_leaves {A B} (m : Wizard A) (k : A → Wizard B) :
  leaves m leaves_quietly →
  (∀ a, leaves (k a) leaves_quietly) →
  leaves (bind m k) leaves_quietly.
Proof.
  intros Hm Hk.
  apply (leaves_bind _ _ leaves_quietly (λ _, leaves_quietly)); try done.
  intros a l1 r l2 [Hnone _] Hl2. by rewrite (Hnone I).
Qed.

Lemma for_each_leaves {A} (xs : list A) (body : A → Wizard unit) :
  (∀ x, leaves (body x) leaves_quietly) →
  leaves (for_each xs body) leaves_quietly.
Proof.
  intros Hbody. induction xs as [|x xs IH]; simpl.
  - apply leaves_ret. split; [done|]. split; [simpl; lia|constructor].
  - by apply bind_leaves.
Qed.

Lemma leaves_quietly_nil {A} (r : Result A) : leaves_quietly r [].
Proof. split; [done|]. split; [simpl; lia|constructor]. Qed.

Lemma compileTemplate_leaves (filePath : string) (data : TemplateData) :
  leaves (await (compileTemplate filePath data)) leaves_quietly.
Proof. quiet_cases. Qed.

Lemma mkdirpAsync_leaves (dir : string) :
  leaves (await (mkdirpAsync dir)) leaves_quietly.
Proof. quiet_cases. Qed.

Lemma writeFile_leaves (file content : string) :
  leaves (await (writeFile file content)) leaves_quietly.
Proof. quiet_cases. Qed.

Lemma compileTemplates_leave (path1 path2 : string) (data1 data2 : TemplateData) :
  leaves (Promise_all (compileTemplate path1 data1) (compileTemplate path2 data2))
    leaves_quietly.
Proof. quiet_cases. Qed.

Lemma mkdirpAsyncs_leave (dir1 dir2 : string) :
  leaves (Promise_all (mkdirpAsync dir1) (mkdirpAsync dir2)) leaves_quietly.
Proof. quiet_cases. Qed.

Lemma writeFiles_leave (file1 content1 file2 content2 : string) :
  leaves (Promise_all (writeFile file1 content1) (writeFile file2 content2))
    leaves_quietly.
Proof. quiet_cases. Qed.

Lemma copyFiles_leaves (origin dest : string) :
  leaves (copyFiles origin dest) leaves_quietly.
Proof. quiet_cases. Qed.

Lemma generateCommonFile_leaves (data : RulePackage.t) (file : File) :
  leaves (generateCommonFile data file) leaves_quietly.
Proof.
  unfold generateCommonFile.
  apply bind_leaves; [apply compileTemplate_leaves|]. intros fileContent.
  apply bind_leaves; [apply mkdirpAsync_leaves|]. intros _.
  apply writeFile_leaves.
Qed.

Lemma generateRuleFile_leaves (dest : string) (data : RulePackage.t)
    (rule : NewRule.t) :
  leaves (generateRuleFile dest data rule) leaves_quietly.
Proof.
  unfold generateRuleFile.
  apply bind_leaves; [apply compileTemplates_leave|]. intros contents.
  apply bind_leaves; [apply mkdirpAsyncs_leave|]. intros _.
  apply bind_leaves; [apply writeFiles_leave|]. intros _.
  destruct (truthy_bool (RulePackage.isMulti data));
    [|apply leaves_ret, leaves_quietly_nil].
  apply bind_leaves; [apply compileTemplate_leaves|]. intros docContent.
  apply bind_leaves; [apply mkdirpAsync_leaves|]. intros _.
  apply writeFile_leaves.
Qed.

Lemma generateRuleFiles_leaves (dest : string) (data : RulePackage.t) :
  leaves (generateRuleFiles dest data) leaves_quietly.
Proof.
  unfold generateRuleFiles. apply bind_leaves.
  - apply for_each_leaves, generateCommonFile_leaves.
  - intros _. apply for_each_leaves, generateRuleFile_leaves.
Qed.

Lemma newRule_try_leaves : leaves newRule_try leaves_quietly.
Proof.
  unfold newRule_try.
  apply bind_leaves; [apply leaves_ask; intros r; apply leaves_quietly_nil|].
  intros results.
  apply bind_leaves; [apply leaves_call; intros r; apply leaves_quietly_nil|].
  intros official.
  apply bind_leaves.
  { destruct (truthy_bool (Answers.multi results));
      [apply askRules_leaves|apply leaves_ret, leaves_quietly_nil]. }
  intros rules.
  apply bind_leaves; [apply leaves_lift, leaves_quietly_nil|]. intros rulePackage.
  apply bind_leaves.
  { destruct (negb (RulePackage.official rulePackage));
      [apply copyFiles_leaves|apply leaves_ret, leaves_quietly_nil]. }
  intros _. apply bind_leaves; [apply copyFiles_leaves|]. intros _.
  apply bind_leaves; [apply generateRuleFiles_leaves|]. intros _.
  apply bind_leaves; [apply leaves_emit, leaves_quietly_nil|]. intros _.
  apply bind_leaves; [apply leaves_emit, leaves_quietly_nil|]. intros _.
  apply leaves_ret, leaves_quietly_nil.
Qed.




End failure.

Section failure_sessions.
Import NewRuleWizard Concrete.



End failure_sessions.

(* ===================================================================== *)
(** * Properties of the helpers of the [init] wizard                      *)
(* ===================================================================== *)

Section init_helpers.
Import Init.

Lemma chars_app (s1 s2 : string) : chars (s1 +:+ s2) = chars s1 ++ chars s2.
Proof. induction s1 as [|c s1 IH]; simpl; [done|by rewrite IH]. Qed.

Lemma split_on_not_nil (c : ascii) (s : string) : split_on c s ≠ [].
Proof.
  induction s as [|a s IH]; simpl; [done|].
  destruct (Ascii.eqb a c); [done|]. by destruct (split_on c s).
Qed.

Lemma split_on_without (c : ascii) (s : string) :
  c ∉ chars s → split_on c s = [s].
Proof.
  induction s as [|a s IH]; simpl; [done|].
  intros Hnot. apply not_elem_of_cons in Hnot as [Hne Hnot].
  destruct (Ascii.eqb a c) eqn:Hac; [by apply Ascii.eqb_eq in Hac|].
  by rewrite IH.
Qed.

Lemma split_on_before (c : ascii) (s1 s2 : string) :
  c ∉ chars s1 → split_on c (s1 +:+ String c s2) = s1 :: split_on c s2.
Proof.
  induction s1 as [|a s1 IH]; simpl.
  - intros _. by rewrite Ascii.eqb_refl.
  - intros Hnot. apply not_elem_of_cons in Hnot as [Hne Hnot].
    destruct (Ascii.eqb a c) eqn:Hac; [by apply Ascii.eqb_eq in Hac|].
    by rewrite IH.
Qed.

Lemma split_on_second (c : ascii) (s : string) :
  is_Some (split_on c s !! 1%nat) ↔ c ∈ chars s.
Proof.
  induction s as [|a s IH]; simpl.
  - split; [by intros [x Hx]|by intros Hin%elem_of_nil].
  - destruct (Ascii.eqb a c) eqn:Hac.
    + apply Ascii.eqb_eq in Hac as ->. split; [intros _; by left|intros _].
      simpl. destruct (split_on c s) eqn:Hs; [by apply split_on_not_nil in Hs|].
      by eexists.
    + apply Ascii.eqb_neq in Hac.
      destruct (split_on c s) as [|seg segs] eqn:Hs;
        [by apply split_on_not_nil in Hs|].
      simpl in *. rewrite IH. rewrite elem_of_cons. clear IH Hs. intuition congruence.
Qed.

Lemma substring_all (s : string) : String.substring 0 (String.length s) s = s.
Proof. induction s as [|a s IH]; simpl; [done|by rewrite IH]. Qed.

Lemma replace_first_unfold (pat rep s : string) :
  replace_first pat rep s =
    if String.prefix pat s
    then rep +:+ String.substring (String.length pat)
                   (String.length s - String.length pat) s
    else match s with
         | EmptyString => EmptyString
         | String a s' => String a (replace_first pat rep s')
         end.
Proof. by destruct s. Qed.

(** A text that starts with the pattern loses it. *)
Lemma replace_first_prefix (pat rep s : string) :
  replace_first pat rep (pat +:+ s) = rep +:+ s.
Proof.
  rewrite replace_first_unfold.
  assert (String.prefix pat (pat +:+ s) = true) as ->.
  { induction pat as [|a pat IH]; simpl; [by destruct s|].
    by rewrite IH, (proj2 (Ascii.eqb_eq a a) eq_refl) || destruct (ascii_dec a a). }
  f_equal. induction pat as [|a pat IH]; simpl.
  - by rewrite Nat.sub_0_r, substring_all.
  - done.
Qed.

(** The name of a configuration package is answered without its scope and
    without the [configuration-] that starts it. *)
Theorem getConfigurationName_scoped (scope name : string) :
  "/"%char ∉ chars scope →
  "/"%char ∉ chars name →
  getConfigurationName (scope +:+ "/configuration-" +:+ name) = Ok name.
Proof.
  intros Hscope Hname. unfold getConfigurationName.
  change (scope +:+ "/configuration-" +:+ name)
    with (scope +:+ String "/" ("configuration-" +:+ name)).
  rewrite split_on_before; [|done].
  rewrite split_on_without.
  - cbv [lookup list_lookup].
    by rewrite (replace_first_prefix "configuration-" "" name).
  - rewrite chars_app. apply not_elem_of_app. split; [|done].
    simpl. rewrite !not_elem_of_cons. repeat split; try done.
    apply not_elem_of_nil.
Qed.

(** [getConfigurationName] answers exactly for the names that contain a
    slash; for the others the member access on the missing second segment
    throws a [TypeError]. *)
Theorem getConfigurationName_needs_slash (pkgName : string) :
  ((∃ name, getConfigurationName pkgName = Ok name) ↔ "/"%char ∈ chars pkgName) ∧
  ((∃ msg, getConfigurationName pkgName = Throw (TypeError msg))
     ↔ "/"%char ∉ chars pkgName).
Proof.
  unfold getConfigurationName.
  pose proof (split_on_second "/" pkgName) as Hsecond.
  destruct (split_on "/" pkgName !! 1%nat) as [seg|].
  - split; split.
    + intros _. apply Hsecond. by eexists.
    + intros _. by eexists.
    + by intros [msg Hmsg].
    + intros Hnot. destruct Hnot. apply Hsecond. by eexists.
  - split; split.
    + by intros [name Hname].
    + intros Hin. apply Hsecond in Hin. by destruct Hin.
    + intros _ Hin. apply Hsecond in Hin. by destruct Hin.
    + intros _. by eexists.
Qed.

(** The choices offered on the predefined path are the published packages,
    in order: the value of a choice is the name of its package and its
    label is the short name of that package.  The list cannot be built,
    and a [TypeError] is thrown, exactly when a published name has no
    slash. *)
Theorem configChoices_offers_published (configPackages : list NpmPackage) :
  match configChoices configPackages with
  | Ok choices =>
    choice_value <$> choices = name <$> configPackages ∧
    Forall (λ choice, getConfigurationName (choice_value choice)
                      = Ok (choice_name choice)) choices
  | Throw e =>
    (∃ msg, e = TypeError msg) ∧
    Exists (λ pkg, "/"%char ∉ chars (name pkg)) configPackages
  end.
Proof.
  induction configPackages as [|pkg rest IH]; simpl; [done|].
  destruct (getConfigurationName (name pkg)) as [n|e] eqn:Hn.
  - destruct (configChoices rest) as [cs|e]; simpl.
    + destruct IH as [Hvalues Hnames]. split; [by f_equal|].
      by constructor.
    + destruct IH as [Hmsg Hexists]. split; [done|]. by right.
  - unfold getConfigurationName in Hn.
    pose proof (split_on_second "/" (name pkg)) as Hsecond.
    destruct (split_on "/" (name pkg) !! 1%nat) as [seg|]; [done|].
    injection Hn as <-. split; [by eexists|]. left.
    intros Hin. apply Hsecond in Hin. by destruct Hin.
Qed.

Lemma has_field_keys (key : string) (fields : list (string * Json)) :
  has_field key fields = true ↔ key ∈ fields.*1.
Proof.
  unfold has_field. induction fields as [|[k v] fields IH]; simpl.
  - split; [done|by intros ?%elem_of_nil].
  - rewrite orb_true_iff, IH, elem_of_cons, String.eqb_eq. intuition congruence.
Qed.

Lemma obj_get_None (key : string) (fields : list (string * Json)) :
  has_field key fields = false → obj_get key fields = None.
Proof.
  unfold has_field. induction fields as [|[k v] fields IH]; simpl; [done|].
  destruct (String.eqb k key); [done|]. apply IH.
Qed.

Lemma obj_get_replace (key key' : string) (value : Json)
    (fields : list (string * Json)) :
  has_field key fields = true →
  obj_get key' (obj_replace key value fields) =
    if decide (key' = key) then Some value else obj_get key' fields.
Proof.
  unfold has_field. induction fields as [|[k v] fields IH]; simpl; [done|].
  destruct (String.eqb k key) eqn:Hk; simpl.
  - intros _. apply String.eqb_eq in Hk as ->.
    destruct (String.eqb key key') eqn:Hk'.
    + apply String.eqb_eq in Hk' as ->. by rewrite decide_True.
    + apply String.eqb_neq in Hk'. by rewrite decide_False.
  - intros Hhas. rewrite (IH Hhas). apply String.eqb_neq in Hk.
    destruct (String.eqb k key') eqn:Hk'; [|done].
    apply String.eqb_eq in Hk' as ->. by rewrite decide_False.
Qed.

Lemma obj_get_insert (n : N) (key key' : string) (value : Json)
    (fields : list (string * Json)) :
  has_field key fields = false →
  obj_get key' (obj_insert n key value fields) =
    if decide (key' = key) then Some value else obj_get key' fields.
Proof.
  assert (obj_get key' ((key, value) :: fields) =
          if decide (key' = key) then Some value else obj_get key' fields) as Hhead.
  { simpl. destruct (String.eqb key key') eqn:Hk.
    - apply String.eqb_eq in Hk as ->. by rewrite decide_True.
    - apply String.eqb_neq in Hk. by rewrite decide_False. }
  clear Hhead. unfold has_field.
  induction fields as [|[k v] fields IH]; cbn [obj_insert existsb fst]; intros Hhas.
  - simpl. destruct (String.eqb key key') eqn:Hk.
    + apply String.eqb_eq in Hk as ->. by rewrite decide_True.
    + apply String.eqb_neq in Hk. by rewrite decide_False.
  - apply orb_false_iff in Hhas as [Hk Hhas]. apply String.eqb_neq in Hk.
    assert (obj_get key' ((key, value) :: (k, v) :: fields) =
            if decide (key' = key) then Some value
            else obj_get key' ((k, v) :: fields)) as Hhead.
    { cbn [obj_get]. destruct (String.eqb key key') eqn:Hk'.
      - apply String.eqb_eq in Hk' as ->. by rewrite decide_True.
      - apply String.eqb_neq in Hk'. by rewrite decide_False. }
    destruct (array_index k) as [m|]; [|done].
    destruct (m <? n)%N; [|done].
    cbn [obj_get]. rewrite (IH Hhas).
    destruct (String.eqb k key') eqn:Hk'; [|done].
    apply String.eqb_eq in Hk' as ->. by rewrite decide_False.
Qed.

Lemma obj_get_append (key key' : string) (value : Json)
    (fields : list (string * Json)) :
  has_field key fields = false →
  obj_get key' (fields ++ [(key, value)]) =
    if decide (key' = key) then Some value else obj_get key' fields.
Proof.
  unfold has_field. induction fields as [|[k v] fields IH]; simpl; intros Hhas.
  - destruct (String.eqb key key') eqn:Hk.
    + apply String.eqb_eq in Hk as ->. by rewrite decide_True.
    + apply String.eqb_neq in Hk. by rewrite decide_False.
  - apply orb_false_iff in Hhas as [Hk Hhas]. apply String.eqb_neq in Hk.
    rewrite (IH Hhas). destruct (String.eqb k key') eqn:Hk'; [|done].
    apply String.eqb_eq in Hk' as ->. by rewrite decide_False.
Qed.

(** [obj[key] = value] followed by [obj[key']]. *)
Lemma obj_get_set (key key' : string) (value : Json)
    (fields : list (string * Json)) :
  obj_get key' (obj_set key value fields) =
    if decide (key' = key ∧ key ≠ "__proto__") then Some value
    else obj_get key' fields.
Proof.
  unfold obj_set. destruct (String.eqb key "__proto__") eqn:Hproto.
  - apply String.eqb_eq in Hproto. rewrite decide_False; [done|]. by intros [_ ?].
  - apply String.eqb_neq in Hproto.
    assert ((if decide (key' = key ∧ key ≠ "__proto__") then Some value
             else obj_get key' fields)
            = if decide (key' = key) then Some value else obj_get key' fields)
      as ->.
    { destruct (decide (key' = key)) as [->|Hne].
      - by rewrite decide_True.
      - rewrite decide_False; [done|]. by intros [? _]. }
    destruct (has_field key fields) eqn:Hhas.
    + by apply obj_get_replace.
    + destruct (array_index key) as [n|].
      * by apply obj_get_insert.
      * by apply obj_get_append.
Qed.

Lemma obj_replace_keys (key : string) (value : Json)
    (fields : list (string * Json)) :
  (obj_replace key value fields).*1 = fields.*1.
Proof.
  induction fields as [|[k v] fields IH]; [done|]. cbn [obj_replace].
  destruct (String.eqb k key); [done|]. rewrite !fmap_cons. by rewrite IH.
Qed.

Lemma obj_insert_keys (n : N) (key : string) (value : Json)
    (fields : list (string * Json)) :
  (obj_insert n key value fields).*1 ≡ₚ key :: fields.*1.
Proof.
  induction fields as [|[k v] fields IH]; cbn [obj_insert]; [done|].
  destruct (array_index k) as [m|]; [|done].
  destruct (m <? n)%N; [|done].
  rewrite !fmap_cons, IH. cbn [fst]. apply Permutation_swap.
Qed.

Lemma obj_set_NoDup (key : string) (value : Json)
    (fields : list (string * Json)) :
  NoDup fields.*1 → NoDup (obj_set key value fields).*1.
Proof.
  intros Hnodup. unfold obj_set.
  destruct (String.eqb key "__proto__"); [done|].
  destruct (has_field key fields) eqn:Hhas.
  - by rewrite obj_replace_keys.
  - assert (key ∉ fields.*1) as Hnot.
    { intros Hin. apply has_field_keys in Hin. congruence. }
    destruct (array_index key) as [n|].
    + rewrite obj_insert_keys. by constructor.
    + rewrite fmap_app. apply NoDup_app. split; [done|].
      split; [|apply NoDup_singleton].
      intros x Hx Hx'. apply list_elem_of_singleton in Hx' as ->. done.
Qed.

Lemma obj_get_keys (key : string) (fields : list (string * Json)) :
  key ∈ fields.*1 ↔ is_Some (obj_get key fields).
Proof.
  induction fields as [|[k v] fields IH]; simpl.
  - split; [by intros Hin%elem_of_nil|by intros [x Hx]].
  - destruct (String.eqb k key) eqn:Hk.
    + apply String.eqb_eq in Hk as ->. split; [by eexists|by left].
    + apply String.eqb_neq in Hk. rewrite elem_of_cons, IH.
      clear IH. intuition congruence.
Qed.

Lemma rulesObject_from (rules : list string) (acc : list (string * Json))
    (rule : string) :
  obj_get rule (foldl (λ obj rule, obj_set rule (JString "error") obj) acc rules)
    = (if decide (rule ∈ rules ∧ rule ≠ "__proto__")
       then Some (JString "error") else obj_get rule acc) ∧
  (NoDup acc.*1 →
   NoDup (foldl (λ obj rule, obj_set rule (JString "error") obj) acc rules).*1).
Proof.
  revert acc. induction rules as [|r rules IH]; intros acc; cbn [foldl].
  - split; [|done]. rewrite decide_False; [done|]. by intros [?%elem_of_nil _].
  - destruct (IH (obj_set r (JString "error") acc)) as [Hget Hnodup].
    split.
    + rewrite Hget, obj_get_set.
      destruct (decide (rule ∈ rules ∧ rule ≠ "__proto__")) as [[Hin Hproto]|Hnot].
      * rewrite decide_True; [done|]. split; [by right|done].
      * destruct (decide (rule = r ∧ r ≠ "__proto__")) as [[-> Hproto]|Hne].
        -- rewrite decide_True; [done|]. split; [by left|done].
        -- rewrite decide_False; [done|].
           intros [[->|Hin]%elem_of_cons Hproto]; [by apply Hne|by apply Hnot].
    + intros Hacc. by apply Hnodup, obj_set_NoDup.
Qed.

(** The own fields of the [rules] object: the chosen rules, each set to
    [error], without [__proto__], whose assignment adds no field. *)
Lemma rulesObject_fields (rules : list string) :
  NoDup (rulesObject rules).*1 ∧
  ∀ rule, obj_get rule (rulesObject rules)
          = if decide (rule ∈ rules ∧ rule ≠ "__proto__")
            then Some (JString "error") else None.
Proof.
  unfold rulesObject. split.
  - apply (rulesObject_from rules [] ""). constructor.
  - intros rule. apply (rulesObject_from rules [] rule).
Qed.

(** The [rules] object of a custom configuration has exactly the chosen
    rules as its own fields, each set to [error], and one field per chosen
    rule however often the rule was chosen.  The rules are ordinary keys:
    none is [__proto__], whose assignment adds no field to an object. *)
Theorem rulesObject_sets_chosen_rules (rules : list string) (rule : string) :
  "__proto__" ∉ rules →
  obj_get rule (rulesObject rules)
    = (if decide (rule ∈ rules) then Some (JString "error") else None) ∧
  NoDup (rulesObject rules).*1 ∧
  (rule ∈ (rulesObject rules).*1 ↔ rule ∈ rules).
Proof.
  intros Hproto. destruct (rulesObject_fields rules) as [Hnodup Hget].
  assert (obj_get rule (rulesObject rules)
          = if decide (rule ∈ rules) then Some (JString "error") else None)
    as Hrule.
  { rewrite Hget. destruct (decide (rule ∈ rules)) as [Hin|Hnot].
    - rewrite decide_True; [done|]. split; [done|]. by intros ->.
    - rewrite decide_False; [done|]. by intros [? _]. }
  split; [done|]. split; [done|].
  rewrite obj_get_keys, Hrule.
  destruct (decide (rule ∈ rules)); split; try done;
    first [by eexists|by intros [x Hx]].
Qed.

End init_helpers.

(* ===================================================================== *)
(** * More properties of the [init] wizard                                *)
(* ===================================================================== *)

Section init_more.
Import Init InitTrace.
Context {N : Node} {E : Effects}.

Lemma existsb_eqb_false (x : string) (l : list string) :
  existsb (String.eqb x) l = false → x ∉ l.
Proof.
  induction l as [|y l IH]; simpl; [intros _; apply not_elem_of_nil|].
  intros Hor. apply orb_false_iff in Hor as [Hxy Hl].
  apply not_elem_of_cons. split; [by apply String.eqb_neq|by apply IH].
Qed.

(** When [init] answers false, a required kind of resource was missing:
    the wizard has logged the one message that names it, and has neither
    written a file nor installed a package.  The missing kind is never
    [parser]. *)
Theorem init_false_touches_nothing (script : list (Result Answers.t)) :
  fst (init (fresh script)) = Ok false →
  Forall (λ ev, touches_disk ev = false) (trace (snd (init (fresh script)))) ∧
  ∃ type,
    errors_logged (trace (snd (init (fresh script)))) = [missing_message type] ∧
    match type with
    | ResourceType.configuration =>
      EvGetOfficialPackages ResourceType.configuration (Ok [])
        ∈ trace (snd (init (fresh script)))
    | ResourceType.parser => False
    | _ => getInstalledResources type ++ getCoreResources type = []
    end.
Proof.
  init_unfold. split_matches; intros Hres; try discriminate Hres.
  all: split; [repeat constructor|].
  - exists ResourceType.configuration. split; [reflexivity|].
    apply list_elem_of_In. simpl. tauto.
  - by exists ResourceType.connector.
  - by exists ResourceType.formatter.
  - by exists ResourceType.rule.
Qed.

(** When [init] answers true, no call of the run has failed, no error was
    logged, and the configuration was written once, to [.sonarwhalrc] in
    the current working directory. *)
Theorem init_true_wrote_config (script : list (Result Answers.t)) :
  fst (init (fresh script)) = Ok true →
  Forall (λ ev, failed ev = None) (trace (snd (init (fresh script)))) ∧
  errors_logged (trace (snd (init (fresh script)))) = [] ∧
  ∃ cfg, config_writes (trace (snd (init (fresh script))))
         = [(path_join [process_cwd; ".sonarwhalrc"], cfg, Ok tt)].
Proof.
  init_unfold. split_matches; intros Hres; try discriminate Hres.
  all: split; [repeat constructor|]; split; [reflexivity|].
  all: eexists; cbn;
    repeat match goal with u : unit |- _ => destruct u end; reflexivity.
Qed.

(** [init] has no handler: when a call of the run fails, the run ends with
    that call and [init] throws its error unchanged. *)
Theorem init_propagates_failure (script : list (Result Answers.t))
    (ev : Event) (e : Error) :
  ev ∈ trace (snd (init (fresh script))) →
  failed ev = Some e →
  fst (init (fresh script)) = Throw e ∧
  last (trace (snd (init (fresh script)))) = Some ev.
Proof.
  init_unfold. split_matches; intros Hin Hfailed.
  all: repeat (apply elem_of_cons in Hin as [->|Hin];
               [try discriminate Hfailed|]);
    try (by apply elem_of_nil in Hin).
  all: injection Hfailed as ->; by split.
Qed.

(** Packages are only installed at the end of a predefined run.  A run
    that calls [installPackages] has asked the first question, which the
    operator answered with [predefined]; it has looked up the published
    configurations and asked which one to extend; it has written, with
    success, a configuration that extends the short name of the operator's
    answer; and that short name is not among the installed
    configurations.  The one package it installs is the operator's answer,
    and nothing follows the installation. *)
Theorem init_installs_missing_configuration (script : list (Result Answers.t))
    (packages : list string) (r : Result unit) :
  EvInstallPackages packages r ∈ trace (snd (init (fresh script))) →
  ∃ initial answers rest published choices name,
    script = Ok initial :: Ok answers :: rest ∧
    Answers.configType initial = "predefined" ∧
    configChoices published = Ok choices ∧
    packages = [Answers.configuration answers] ∧
    getConfigurationName (Answers.configuration answers) = Ok name ∧
    (name ∉ getInstalledResources ResourceType.configuration) ∧
    trace (snd (init (fresh script))) =
      [ EvDebug "Starting --init";
        EvLog "Welcome to sonarwhal configuration generator";
        EvPrompt initialQuestion (Ok initial);
        EvGetOfficialPackages ResourceType.configuration (Ok published);
        EvPrompt
          [ {| q_choices := choices;
               q_default := None;
               q_message := "Choose the configuration you want to extend from";
               q_name := "configuration";
               q_pageSize := Some 15%nat;
               q_type := "list" |} ]
          (Ok answers);
        EvWriteFile (path_join [process_cwd; ".sonarwhalrc"])
          (JObject [("extends", JArray [JString name])]) (Ok tt);
        EvInstallPackages [Answers.configuration answers] r ].
Proof.
  init_unfold. cbn [pending trace late].
  destruct script as [|[initial|e] [|[answers|e'] rest]]; split_matches;
    intros Hin; members Hin.
  all: simplify_eq.
  all: repeat match goal with u : unit |- _ => destruct u end.
  all: match goal with
       | H : getConfigurationName _ = Ok ?n |- _ =>
         eexists initial, answers, rest, _, _, n
       end.
  all: split; [reflexivity|]; split; [by apply String.eqb_eq|].
  all: split; [eassumption|]; split; [reflexivity|]; split; [done|].
  all: split; [by apply existsb_eqb_false|reflexivity].
Qed.

(** In a custom run, the object handed to [fs.writeFile] carries the
    operator's answers: the browsers list that was generated, the chosen
    connector (with a wait of 1000), the chosen formatter in place of the
    default one, and a [rules] object whose own fields are the chosen
    rules, each set to [error] (in the order the runtime gives them; a
    rule named [__proto__] adds no field); it extends nothing and ignores
    no URL. *)
Theorem custom_config_content (initial results : Answers.t)
    (rest : list (Result Answers.t)) (filePath : string) (cfg : Json)
    (r : Result unit) :
  Answers.configType initial ≠ "predefined" →
  EvWriteFile filePath cfg r
    ∈ trace (snd (init (fresh (Ok initial :: Ok results :: rest)))) →
  filePath = path_join [process_cwd; ".sonarwhalrc"] ∧
  ∃ browserslist chosen,
    EvBrowserslist (Ok browserslist)
      ∈ trace (snd (init (fresh (Ok initial :: Ok results :: rest)))) ∧
    cfg = JObject [
      ("browserslist", JArray (JString <$> browserslist));
      ("connector", JObject [ ("name", JString (Answers.connector results));
                              ("options", JObject [("waitFor", JNumber 1000)]) ]);
      ("extends", JArray []);
      ("formatters", JArray [JString (Answers.formatter results)]);
      ("ignoredUrls", JArray []);
      ("rules", JObject chosen);
      ("rulesTimeout", JNumber 120000) ] ∧
    NoDup chosen.*1 ∧
    ∀ rule, obj_get rule chosen
            = if decide (rule ∈ Answers.rules results ∧ rule ≠ "__proto__")
              then Some (JString "error") else None.
Proof.
  intros Hcustom. init_unfold. cbn [pending trace late].
  destruct (String.eqb (Answers.configType initial) "predefined") eqn:Htype;
    [by apply String.eqb_eq in Htype|].
  destruct (rulesObject_fields (Answers.rules results)) as [Hnodup Hget].
  split_matches; intros Hin; members Hin.
  all: injection Hin as -> -> ->; split; [reflexivity|].
  all: eexists _, (rulesObject (Answers.rules results)).
  all: split; [apply list_elem_of_In; simpl; tauto|].
  all: split; [reflexivity|]; by split.
Qed.

(** In a predefined run, the object handed to [fs.writeFile] extends the
    configuration the operator chose, under its short name, and has no
    other field. *)
Theorem predefined_config_content (initial answers : Answers.t)
    (rest : list (Result Answers.t)) (filePath : string) (cfg : Json)
    (r : Result unit) :
  Answers.configType initial = "predefined" →
  EvWriteFile filePath cfg r
    ∈ trace (snd (init (fresh (Ok initial :: Ok answers :: rest)))) →
  filePath = path_join [process_cwd; ".sonarwhalrc"] ∧
  ∃ name,
    getConfigurationName (Answers.configuration answers) = Ok name ∧
    cfg = JObject [("extends", JArray [JString name])].
Proof.
  intros Hpredefined. init_unfold. cbn [pending trace].
  rewrite Hpredefined. cbn [String.eqb Ascii.eqb Bool.eqb].
  split_matches; intros Hin; members Hin.
  all: injection Hin as -> -> ->; split; [reflexivity|].
  all: eexists; split; reflexivity.
Qed.

End init_more.

Section init_more_sessions.
Import Init InitTrace Concrete Sessions.

Lemma init_false_touches_nothing_witness :
  Forall (λ ev, touches_disk ev = false)
    (trace (snd (init (E := registry []) (fresh [Ok (choose "predefined")])))) ∧
  ∃ type,
    errors_logged
      (trace (snd (init (E := registry []) (fresh [Ok (choose "predefined")]))))
      = [missing_message type] ∧
    match type with
    | ResourceType.configuration =>
      EvGetOfficialPackages ResourceType.configuration (Ok [])
        ∈ trace (snd (init (E := registry []) (fresh [Ok (choose "predefined")])))
    | ResourceType.parser => False
    | _ => getInstalledResources (Effects := registry []) type
           ++ getCoreResources (Effects := registry []) type = []
    end.
Proof.
  exact (init_false_touches_nothing (E := registry [])
           [Ok (choose "predefined")] eq_refl).
Defined.

Lemma init_true_wrote_config_witness :
  let run := init (E := registry [])
               (fresh [Ok (choose "custom"); Ok custom_answers]) in
  Forall (λ ev, failed ev = None) (trace (snd run)) ∧
  errors_logged (trace (snd run)) = [] ∧
  ∃ cfg, config_writes (trace (snd run))
         = [("/work/packages/.sonarwhalrc", cfg, Ok tt)].
Proof.
  exact (init_true_wrote_config (E := registry [])
           [Ok (choose "custom"); Ok custom_answers] eq_refl).
Defined.

Lemma init_propagates_failure_witness :
  let run := init (E := registry []) (fresh [Throw denied]) in
  fst run = Throw denied ∧
  last (trace (snd run)) = Some (EvPrompt initialQuestion (Throw denied)).
Proof.
  refine (init_propagates_failure (E := registry []) [Throw denied]
            (EvPrompt initialQuestion (Throw denied)) denied _ eq_refl).
  apply list_elem_of_In. vm_compute. repeat (first [left; reflexivity | right]).
Defined.

Lemma init_installs_missing_configuration_witness :
  let run := init (E := registry [web_recommended])
               (fresh [Ok (choose "predefined"); Ok pick_web_recommended]) in
  ∃ initial answers rest published choices name,
    [Ok (choose "predefined"); Ok pick_web_recommended]
      = Ok initial :: Ok answers :: rest ∧
    Answers.configType initial = "predefined" ∧
    configChoices published = Ok choices ∧
    ["@sonarwhal/configuration-web-recommended"] = [Answers.configuration answers] ∧
    getConfigurationName (Answers.configuration answers) = Ok name ∧
    (name ∉ getInstalledResources (Effects := registry [web_recommended])
              ResourceType.configuration) ∧
    trace (snd run) =
      [ EvDebug "Starting --init";
        EvLog "Welcome to sonarwhal configuration generator";
        EvPrompt initialQuestion (Ok initial);
        EvGetOfficialPackages ResourceType.configuration (Ok published);
        EvPrompt
          [ {| q_choices := choices;
               q_default := None;
               q_message := "Choose the configuration you want to extend from";
               q_name := "configuration";
               q_pageSize := Some 15%nat;
               q_type := "list" |} ]
          (Ok answers);
        EvWriteFile (path_join [process_cwd; ".sonarwhalrc"])
          (JObject [("extends", JArray [JString name])]) (Ok tt);
        EvInstallPackages [Answers.configuration answers] (Ok tt) ].
Proof.
  refine (init_installs_missing_configuration (E := registry [web_recommended])
            [Ok (choose "predefined"); Ok pick_web_recommended]
            ["@sonarwhal/configuration-web-recommended"] (Ok tt) _).
  apply list_elem_of_In. vm_compute. repeat (first [left; reflexivity | right]).
Defined.

Lemma custom_config_content_witness :
  "/work/packages/.sonarwhalrc" = path_join [process_cwd; ".sonarwhalrc"] ∧
  ∃ browserslist chosen,
    EvBrowserslist (Ok browserslist)
      ∈ trace (snd (init (E := registry [])
                      (fresh [Ok (choose "custom"); Ok custom_answers]))) ∧
    custom_object = JObject [
      ("browserslist", JArray (JString <$> browserslist));
      ("connector", JObject [ ("name", JString "jsdom");
                              ("options", JObject [("waitFor", JNumber 1000)]) ]);
      ("extends", JArray []);
      ("formatters", JArray [JString "summary"]);
      ("ignoredUrls", JArray []);
      ("rules", JObject chosen);
      ("rulesTimeout", JNumber 120000) ] ∧
    NoDup chosen.*1 ∧
    ∀ rule, obj_get rule chosen
            = if decide (rule ∈ ["axe"] ∧ rule ≠ "__proto__")
              then Some (JString "error") else None.
Proof.
  refine (custom_config_content (E := registry [])
            (choose "custom") custom_answers []
            "/work/packages/.sonarwhalrc" custom_object (Ok tt) _ _).
  - discriminate.
  - apply list_elem_of_In. vm_compute. repeat (first [left; reflexivity | right]).
Defined.

Lemma predefined_config_content_witness :
  "/work/packages/.sonarwhalrc" = path_join [process_cwd; ".sonarwhalrc"] ∧
  ∃ name,
    getConfigurationName "@sonarwhal/configuration-web-recommended" = Ok name ∧
    JObject [("extends", JArray [JString "web-recommended"])]
      = JObject [("extends", JArray [JString name])].
Proof.
  refine (predefined_config_content (E := registry [web_recommended])
            (choose "predefined") pick_web_recommended []
            "/work/packages/.sonarwhalrc"
            (JObject [("extends", JArray [JString "web-recommended"])])
            (Ok tt) eq_refl _).
  apply list_elem_of_In. vm_compute. repeat (first [left; reflexivity | right]).
Defined.

Lemma getConfigurationName_scoped_witness :
  getConfigurationName "@sonarwhal/configuration-web-recommended"
    = Ok "web-recommended".
Proof.
  refine (getConfigurationName_scoped "@sonarwhal" "web-recommended" _ _).
  - intros Hin. apply list_elem_of_In in Hin. vm_compute in Hin.
    repeat (destruct Hin as [Hin|Hin]; [discriminate Hin|]). exact Hin.
  - intros Hin. apply list_elem_of_In in Hin. vm_compute in Hin.
    repeat (destruct Hin as [Hin|Hin]; [discriminate Hin|]). exact Hin.
Defined.

Lemma rulesObject_sets_chosen_rules_witness :
  obj_get "axe" (rulesObject ["axe"; "no-http"; "axe"])
    = (if decide ("axe" ∈ ["axe"; "no-http"; "axe"])
       then Some (JString "error") else None) ∧
  NoDup (rulesObject ["axe"; "no-http"; "axe"]).*1 ∧
  ("axe" ∈ (rulesObject ["axe"; "no-http"; "axe"]).*1
     ↔ "axe" ∈ ["axe"; "no-http"; "axe"]).
Proof.
  refine (rulesObject_sets_chosen_rules ["axe"; "no-http"; "axe"] "axe" _).
  intros Hin. apply list_elem_of_In in Hin.
  repeat (destruct Hin as [Hin|Hin]; [discriminate Hin|]). exact Hin.
Defined.

End init_more_sessions.

(* ===================================================================== *)
(** * More properties of the entity builder                               *)
(* ===================================================================== *)

Section entity_builder_more.
Context {N : Node} {M : Misc}.

Lemma events_lookup_Some (tag : string) :
  tag ∈ usage_tags → is_Some (events !! tag).
Proof.
  unfold usage_tags. intros Hin.
  repeat (apply elem_of_cons in Hin as [->|Hin]; [by eexists|]).
  by apply elem_of_nil in Hin.
Qed.

Lemma getEventsByUseCase_known (useCase : option string) :
  (∃ tag, useCase = Some tag ∧ tag ∈ usage_tags) →
  ∃ evs, getEventsByUseCase useCase = Ok evs.
Proof.
  intros (tag & -> & Hin). unfold getEventsByUseCase. simpl.
  destruct (events_lookup_Some tag Hin) as [evs ->]. by eexists.
Qed.

(** [getEventsByUseCase] answers exactly for the four use cases of the
    [events] map; for any other key, and for a missing use case, the
    member access on the missing entry throws a [TypeError]. *)
Theorem getEventsByUseCase_known_tags (useCase : option string) :
  ((∃ evs, getEventsByUseCase useCase = Ok evs)
     ↔ ∃ tag, useCase = Some tag ∧ tag ∈ usage_tags) ∧
  ((∃ msg, getEventsByUseCase useCase = Throw (TypeError msg))
     ↔ ¬ ∃ tag, useCase = Some tag ∧ tag ∈ usage_tags).
Proof.
  pose proof (getEventsByUseCase_known useCase) as Hknown.
  split; split.
  - intros [evs Hevs]. by eapply getEventsByUseCase_Ok.
  - done.
  - intros [msg Hmsg] Htag. apply Hknown in Htag as [evs Hevs]. congruence.
  - intros Hnot. unfold getEventsByUseCase.
    destruct (useCase ≫= (λ k, events !! k)) as [evs|] eqn:Hlook; [|by eexists].
    destruct Hnot. eapply (getEventsByUseCase_Ok _ (join ", " evs)).
    unfold getEventsByUseCase. by rewrite Hlook.
Qed.

Lemma constructor_succeeds_iff (round : Answers.t) (parent : option string) :
  (∃ item, NewRule.constructor round parent = Ok item) ↔ valid_useCase round.
Proof.
  split.
  - intros [item Hitem].
    apply constructor_Ok_inv in Hitem as (tag & Htag & Hin & _). by exists tag.
  - intros Hvalid. unfold NewRule.constructor.
    destruct (getEventsByUseCase_known _ Hvalid) as [evs ->]. by eexists.
Qed.

Lemma constructor_throws_TypeError (round : Answers.t) (parent : option string)
    (e : Error) :
  NewRule.constructor round parent = Throw e → ∃ msg, e = TypeError msg.
Proof.
  unfold NewRule.constructor, getEventsByUseCase.
  destruct (Answers.useCase round ≫= _); [done|].
  intros [= <-]. by eexists.
Qed.

(** The [useCase] question offers exactly the use cases the [NewRule]
    constructor accepts: a round builds a rule if and only if its use
    case is the value of one of the choices. *)
Theorem useCases_are_the_accepted_ones (round : Answers.t)
    (parent : option string) :
  (∃ item, NewRule.constructor round parent = Ok item) ↔
  ∃ value, Answers.useCase round = Some value ∧ value ∈ Questions.useCases.*2.
Proof.
  rewrite constructor_succeeds_iff. unfold valid_useCase.
  assert (∀ tag, tag ∈ usage_tags ↔ tag ∈ Questions.useCases.*2) as Hsame.
  { intros tag. unfold usage_tags. simpl.
    rewrite !elem_of_cons. intuition. }
  split; intros (tag & Htag & Hin); exists tag; split; try done; by apply Hsame.
Qed.

(** The category of a rule is never empty: it is the answered category,
    and [other] when the category is missing or empty. *)
Theorem NewRule_category_never_empty (round : Answers.t) (parent : option string)
    (item : NewRule.t) :
  NewRule.constructor round parent = Ok item →
  NewRule.category item ≠ "" ∧
  (∀ c, Answers.category round = Some c → c ≠ "" → NewRule.category item = c) ∧
  (Answers.category round = None ∨ Answers.category round = Some "" →
   NewRule.category item = "other").
Proof.
  unfold NewRule.constructor.
  destruct (getEventsByUseCase _); [|done]. intros [= <-]. simpl.
  destruct (Answers.category round) as [[|ch c]|]; simpl.
  - split; [done|]. split; [by intros c [= <-]|done].
  - split; [done|]. split; [by intros c' [= <-]|]. by intros [|].
  - by split.
Qed.

Lemma pushRules_succeeds_iff (rules : list Answers.t) (parent : string) :
  (∃ items, RulePackage.pushRules rules parent = Ok items)
    ↔ Forall valid_useCase rules.
Proof.
  induction rules as [|r rules IH]; simpl.
  - split; [constructor|by eexists].
  - rewrite Forall_cons, <- IH, <- (constructor_succeeds_iff r (Some parent)).
    destruct (NewRule.constructor r (Some parent)) as [item|e].
    + destruct (RulePackage.pushRules rules parent) as [items|e].
      * split; [intros _; split; by eexists|by eexists].
      * split; [by intros [x Hx]|by intros [_ [x Hx]]].
    + split; [by intros [x Hx]|by intros [[x Hx] _]].
Qed.

Lemma pushRules_throws_TypeError (rules : list Answers.t) (parent : string)
    (e : Error) :
  RulePackage.pushRules rules parent = Throw e → ∃ msg, e = TypeError msg.
Proof.
  induction rules as [|r rules IH]; simpl; [done|].
  destruct (NewRule.constructor r (Some parent)) as [item|e'] eqn:Hitem.
  - destruct (RulePackage.pushRules rules parent); [done|].
    intros [= <-]. by apply IH.
  - intros [= <-]. by eapply constructor_throws_TypeError.
Qed.

(** The [RulePackage] constructor succeeds exactly when every round it
    builds a rule from has a use case of the [events] map: every rule round
    of a package of several rules (the answers of the package itself are
    not looked at), the answers of the package otherwise (the rule rounds
    are not looked at).  When it fails, it throws a [TypeError]. *)
Theorem RulePackage_constructor_succeeds_iff (data : PackageData.t) :
  ((∃ pkg, RulePackage.constructor data = Ok pkg) ↔
   if truthy_bool (Answers.multi (PackageData.answers data))
   then Forall valid_useCase (PackageData.rules data)
   else valid_useCase (PackageData.answers data)) ∧
  (∀ e, RulePackage.constructor data = Throw e → ∃ msg, e = TypeError msg).
Proof.
  unfold RulePackage.constructor.
  destruct (truthy_bool (Answers.multi (PackageData.answers data))).
  - rewrite <- (pushRules_succeeds_iff _
                  (normalizeStringByDelimiter
                     (Answers.name (PackageData.answers data)) "-")).
    destruct (RulePackage.pushRules _ _) as [items|e] eqn:Hpush.
    + split; [split; intros _; by eexists|done].
    + split; [split; by intros [x Hx]|].
      intros e' [= <-]. by eapply pushRules_throws_TypeError.
  - rewrite <- (constructor_succeeds_iff _ None).
    destruct (NewRule.constructor _ None) as [item|e] eqn:Hitem.
    + split; [split; intros _; by eexists|done].
    + split; [split; by intros [x Hx]|].
      intros e' [= <-]. by eapply constructor_throws_TypeError.
Qed.

(** A package that is not of several rules holds one rule, built from the
    answers of the package itself: it has no parent, its normalized name is
    that of the package, and its class name is the pascal-cased normalized
    name followed by [Rule], without a prefix.  The rule rounds, if any,
    are ignored. *)
Theorem single_package_holds_one_rule (data : PackageData.t)
    (pkg : RulePackage.t) :
  truthy_bool (Answers.multi (PackageData.answers data)) = false →
  RulePackage.constructor data = Ok pkg →
  ∃ item,
    RulePackage.rules pkg = [item] ∧
    NewRule.constructor (PackageData.answers data) None = Ok item ∧
    NewRule.parentName item = None ∧
    NewRule.name item = RulePackage.name pkg ∧
    NewRule.normalizedName item = RulePackage.normalizedName pkg ∧
    NewRule.description item = RulePackage.description pkg ∧
    NewRule.className item
      = toPascalCase (RulePackage.normalizedName pkg) +:+ "Rule".
Proof.
  intros Hsingle Hpkg.
  apply RulePackage_constructor_inv in Hpkg
    as (Hname & _ & _ & Hnorm & _ & Hdesc & _ & Hrules).
  simpl in Hrules. rewrite Hsingle in Hrules.
  destruct Hrules as (item & Hitem & Hrules). exists item.
  split; [done|]. split; [done|].
  pose proof Hitem as Hinv.
  apply constructor_Ok_inv in Hinv as (_ & _ & _ & _ & Hn & Hclass & Hd).
  unfold NewRule.constructor in Hitem.
  destruct (getEventsByUseCase _); [|done]. injection Hitem as <-. simpl in *.
  by rewrite Hname, Hnorm, Hdesc.
Qed.

End entity_builder_more.

(* ===================================================================== *)
(** * More properties of [escapeSafeString] and of the validation         *)
(* ===================================================================== *)

Section escaping_more.
Import Handlebars.

Lemma escape_backticks_head (str : string) (c : ascii) (rest : string) :
  escape_backticks str = String c rest → c ≠ backtick.
Proof.
  destruct str as [|a str]; [done|]. rewrite escape_backticks_cons.
  destruct (Ascii.eqb a backtick) eqn:Ha.
  - by intros [= <- _].
  - intros [= <- _]. by apply Ascii.eqb_neq.
Qed.

(** Two descriptions with the same escaped text are the same description:
    escaping loses nothing. *)
Theorem escape_backticks_injective (str1 str2 : string) :
  escape_backticks str1 = escape_backticks str2 → str1 = str2.
Proof.
  revert str2. induction str1 as [|c1 rest1 IH]; intros [|c2 rest2].
  - done.
  - rewrite escape_backticks_cons. by destruct (Ascii.eqb c2 backtick).
  - rewrite escape_backticks_cons. by destruct (Ascii.eqb c1 backtick).
  - rewrite !escape_backticks_cons.
    destruct (Ascii.eqb c1 backtick) eqn:H1, (Ascii.eqb c2 backtick) eqn:H2.
    + intros [= <- Hrest]. f_equal. by apply IH.
    + apply Ascii.eqb_eq in H1 as ->. intros [= <- Hrest]. symmetry in Hrest.
      by apply escape_backticks_head in Hrest.
    + apply Ascii.eqb_eq in H2 as ->. intros [= -> Hrest].
      by apply escape_backticks_head in Hrest.
    + intros [= <- Hrest]. f_equal. by apply IH.
Qed.

(** The escaped text is longer than the description by the number of its
    backticks, and it is the description itself exactly when the
    description has no backtick. *)
Theorem escape_backticks_length (str : string) :
  String.length (escape_backticks str)
    = (String.length str + length (filter (λ c, c = backtick) (chars str)))%nat ∧
  (escape_backticks str = str ↔ backtick ∉ chars str).
Proof.
  assert (String.length (escape_backticks str)
          = (String.length str
             + length (filter (λ c, c = backtick) (chars str)))%nat) as Hlen.
  { induction str as [|c rest IH]; [done|].
    rewrite escape_backticks_cons. simpl chars. rewrite filter_cons.
    destruct (Ascii.eqb c backtick) eqn:Hc.
    - apply Ascii.eqb_eq in Hc as ->. rewrite decide_True by done.
      simpl. rewrite IH. lia.
    - apply Ascii.eqb_neq in Hc. rewrite decide_False by done.
      simpl. by rewrite IH. }
  split; [done|]. split.
  - intros Hsame. rewrite Hsame in Hlen.
    assert (filter (λ c, c = backtick) (chars str) = []) as Hnone.
    { apply length_zero_iff_nil. lia. }
    intros Hin.
    assert (backtick ∈ filter (λ c, c = backtick) (chars str)) as Hin'.
    { by apply list_elem_of_filter. }
    rewrite Hnone in Hin'. by apply elem_of_nil in Hin'.
  - clear Hlen. induction str as [|c rest IH]; [done|]. simpl chars.
    intros Hnot. apply not_elem_of_cons in Hnot as [Hne Hnot].
    rewrite escape_backticks_cons.
    destruct (Ascii.eqb c backtick) eqn:Hc; [by apply Ascii.eqb_eq in Hc|].
    by rewrite IH.
Qed.

End escaping_more.

Section validation.
Import Questions.

Lemma trim_end_empty (s : string) :
  trim_end s = "" ↔ Forall (λ c, is_whitespace c = true) (chars s).
Proof.
  induction s as [|c rest IH]; simpl; [by split|].
  rewrite Forall_cons, <- IH.
  destruct (trim_end rest) as [|k kept].
  - destruct (is_whitespace c); split; try done. by intros [? _].
  - split; [done|]. by intros [_ ?].
Qed.

Lemma trim_start_whitespace (s : string) :
  Forall (λ c, is_whitespace c = true) (chars (trim_start s))
    ↔ Forall (λ c, is_whitespace c = true) (chars s).
Proof.
  induction s as [|c rest IH]; simpl; [done|].
  destruct (is_whitespace c) eqn:Hc; [|done].
  rewrite IH, Forall_cons. clear IH. intuition.
Qed.

(** The validation of the free-text answers accepts a text exactly when
    it has a character that is not white space: the empty text and the
    texts made of blanks only are refused. *)
Theorem notEmpty_accepts_visible_text (value : string) :
  notEmpty value = true ↔ Exists (λ c, is_whitespace c = false) (chars value).
Proof.
  unfold notEmpty, trim. rewrite negb_true_iff, String.eqb_neq.
  rewrite trim_end_empty, trim_start_whitespace.
  induction (chars value) as [|c l IH].
  - split; [by intros []|by intros ?%Exists_nil].
  - rewrite Forall_cons, Exists_cons, <- IH.
    destruct (is_whitespace c); [|split; [by left|by intros _ [? _]]].
    split.
    + intros Hnot. right. intros Hall. by apply Hnot.
    + intros [|Hnot]; [done|]. by intros [_ Hall].
Qed.

End validation.

(* ===================================================================== *)
(** * More properties of the generation                                   *)
(* ===================================================================== *)

Section generation_more.
Import NewRuleWizard NewRuleTrace.
Context {N : Node} {M : Misc} {E : Effects}.
Implicit Types (t : list Event).

Lemma dirs_ready_mono (made made' : list string) t :
  made ⊆ made' → dirs_ready made t → dirs_ready made' t.
Proof.
  revert made made'. induction t as [|ev t IH]; intros made made' Hsub; [done|].
  destruct ev as [| | | | |dir [u|e]|path content r| | | |]; simpl; eauto.
  - apply IH. intros x [->|Hx]%elem_of_cons; [by left|right; by apply Hsub].
  - intros [Hin Hrest]. split; [by apply Hsub|by eapply IH].
Qed.

Lemma dirs_ready_app (made : list string) t1 t2 :
  dirs_ready made t1 → dirs_ready made t2 → dirs_ready made (t1 ++ t2).
Proof.
  revert made. induction t1 as [|ev t1 IH]; intros made; [done|].
  destruct ev as [| | | | |dir [u|e]|path content r| | | |]; simpl; eauto.
  - intros H1 H2. apply IH; [done|]. eapply dirs_ready_mono; [|done].
    intros x Hx. by right.
  - intros [Hin H1] H2. split; [done|by apply IH].
Qed.

Lemma dirs_ready_split (made : list string) t pre path content r post :
  dirs_ready made t → t = pre ++ EvWriteFile path content r :: post →
  path_dirname path ∈ made ∨ ∃ u, EvMkdirp (path_dirname path) (Ok u) ∈ pre.
Proof.
  revert made pre. induction t as [|ev t IH]; intros made pre Hready Ht.
  - by destruct pre.
  - destruct pre as [|ev' pre]; simpl in Ht; injection Ht as -> Ht.
    + left. by destruct Hready.
    + assert (∀ made', dirs_ready made' t →
                path_dirname path ∈ made' ∨
                ∃ u, EvMkdirp (path_dirname path) (Ok u) ∈ ev' :: pre) as Hnext.
      { intros made' Hready'.
        destruct (IH made' pre Hready' Ht) as [Hin|[u Hu]]; [by left|].
        right. exists u. by right. }
      destruct ev' as [| | | | |dir [u|e]|path' content' r'| | | |];
        simpl in Hready; try (by apply Hnext).
      * destruct (IH _ pre Hready Ht) as [Hin|[u' Hu]].
        -- apply elem_of_cons in Hin as [->|Hin]; [|by left].
           right. exists u. by left.
        -- right. exists u'. by right.
      * destruct Hready as [_ Hready]. by apply Hnext.
Qed.

Lemma dirs_ready_resumptions (made : list string) t :
  Forall (λ ev, resumption ev = true) t → dirs_ready made t.
Proof.
  induction 1 as [|ev t Hev _ IH]; [done|]. by destruct ev.
Qed.

Lemma not_dialogue_resumptions t :
  Forall (λ ev, resumption ev = true) t → Forall (λ ev, is_dialogue ev = false) t.
Proof. intros Hall. eapply Forall_impl; [done|]. by intros []. Qed.

Lemma piped_app {A B} (f1 f2 : list File) (d1 d2 : list TemplateData)
    (a : A) (r : Result B) t1 t2 :
  piped f1 d1 (Ok a) t1 → piped f2 d2 r t2 →
  piped (f1 ++ f2) (d1 ++ d2) r (t1 ++ t2).
Proof.
  intros H1 H2 Hr.
  destruct (H1 I) as (c1 & x1 & Hd1 & Hc1 & Hx1 & Hreads1 & Hrenders1 & Hwrites1).
  destruct (H2 Hr) as (c2 & x2 & Hd2 & Hc2 & Hx2 & Hreads2 & Hrenders2 & Hwrites2).
  exists (c1 ++ c2), (x1 ++ x2).
  rewrite !length_app. split; [lia|]. split; [lia|]. split; [lia|].
  unfold reads, renders, writes in *.
  rewrite !omap_app, !fmap_app, Hreads1, Hreads2, Hrenders1, Hrenders2,
    Hwrites1, Hwrites2.
  rewrite !zip_with_app; try done; rewrite ?length_fmap, ?length_zip_with; lia.
Qed.

Lemma generates_app {A B} (f1 f2 : list File) (d1 d2 : list TemplateData)
    (a : A) (r : Result B) t1 t2 :
  generates f1 d1 (Ok a) t1 → generates f2 d2 r t2 →
  generates (f1 ++ f2) (d1 ++ d2) r (t1 ++ t2).
Proof.
  intros (Hq1 & Hr1 & Hp1) (Hq2 & Hr2 & Hp2). split; [|split].
  - by apply Forall_app.
  - by apply dirs_ready_app.
  - by eapply piped_app.
Qed.

Lemma generates_throw {A B} (f f' : list File) (d d' : list TemplateData)
    (e : Error) t :
  generates (A := A) f d (Throw e) t → generates (A := B) f' d' (Throw e) t.
Proof. intros (Hq & Hr & _). split; [done|]. split; [done|]. by intros []. Qed.

(** One file, from its template to its destination. *)
Lemma one_file_generates (template : string) (data : TemplateData)
    (file : string) :
  emits (content <~ await (compileTemplate template data);;
         await (mkdirpAsync (path_dirname file));;;
         await (writeFile file content))
    (generates [{| destination := file; path := template |}] [data]).
Proof. generates_cases. Qed.

Lemma generateCommonFile_generates (data : RulePackage.t) (file : File) :
  emits (generateCommonFile data file) (generates [file] [DataPackage data]).
Proof. destruct file as [file template]. apply one_file_generates. Qed.

(** The two templates of a rule: the two reads are started, in order, and
    on success both texts were rendered, in either order. *)
Lemma compileTemplates_shape (path1 path2 : string) (data1 data2 : TemplateData) :
  emits (Promise_all (compileTemplate path1 data1) (compileTemplate path2 data2))
    (λ r t, ∃ read1 read2 u,
       t = EvReadFile path1 read1 :: EvReadFile path2 read2 :: u ∧
       Forall (λ ev, resumption ev = true) u ∧
       ∀ text1 text2, r = Ok (text1, text2) →
         ∃ content1 content2,
           read1 = Ok content1 ∧ read2 = Ok content2 ∧
           (u = [EvRender content1 data1 (Ok text1);
                 EvRender content2 data2 (Ok text2)]
            ∨ u = [EvRender content2 data2 (Ok text2);
                   EvRender content1 data1 (Ok text1)])).
Proof.
  run_cases.
  all: eexists _, _, _; split; [reflexivity|]; split; [repeat constructor|].
  all: intros text1 text2 Hr; try discriminate Hr.
  all: injection Hr as <- <-; eexists _, _; split; [reflexivity|].
  all: split; [reflexivity|]; first [by left|by right].
Qed.

(** Two calls started together: both are made, in order, and on success
    both have succeeded. *)
Lemma callings_shape {A B} (outcome1 : list Event → Result A)
    (record1 : Result A → Event) (outcome2 : list Event → Result B)
    (record2 : Result B → Event) :
  emits (Promise_all (calling outcome1 record1) (calling outcome2 record2))
    (λ r t, ∃ r1 r2,
       t = [record1 r1; record2 r2] ∧
       ∀ a b, r = Ok (a, b) → r1 = Ok a ∧ r2 = Ok b).
Proof.
  intros w. unfold Promise_all, all2, abandon, calling, lift.
  cbn [start resume awaited trace pending late fst snd].
  destruct (outcome1 (trace w)) as [a|e1];
    match goal with
    | |- context [outcome2 ?h] => destruct (outcome2 h) as [b|e2]
    end; split_outcomes.
  all: eexists; (split; [by rewrite <- ?app_assoc|]).
  all: eexists _, _; split; [reflexivity|].
  all: intros a' b' Hr; try discriminate Hr.
  all: by injection Hr as <- <-.
Qed.

Lemma generateRuleFile_generates (dest : string) (data : RulePackage.t)
    (rule : NewRule.t) :
  emits (generateRuleFile dest data rule)
    (generates (ruleFiles dest data rule)
       ((λ _, DataRule rule) <$> ruleFiles dest data rule)).
Proof.
  unfold generateRuleFile, ruleFiles.
  set (rulePath := path_join [destination (ruleFile dest);
                              NewRule.normalizedName rule +:+ ".ts"]).
  set (testPath := path_join [destination (testFile dest);
                              NewRule.normalizedName rule +:+ ".ts"]).
  set (docPath := path_join [destination (docFile dest);
                             NewRule.normalizedName rule +:+ ".md"]).
  eapply (emits_bind _ _ _ (λ contents r t,
            ∃ made1 made2 tail,
              t = EvMkdirp (path_dirname rulePath) made1
                  :: EvMkdirp (path_dirname testPath) made2 :: tail ∧
              (tail = [] ∧ ¬ succeeded r
               ∨ made1 = Ok tt ∧ made2 = Ok tt ∧
                 ∃ written1 written2 doc,
                   tail = EvWriteFile rulePath (fst contents) written1
                          :: EvWriteFile testPath (snd contents) written2 :: doc ∧
                   (doc = [] ∧ ¬ succeeded r
                    ∨ written1 = Ok tt ∧ written2 = Ok tt ∧
                      generates
                        (if truthy_bool (RulePackage.isMulti data)
                         then [ {| destination := docPath;
                                   path := path (docFile dest) |} ]
                         else [])
                        (if truthy_bool (RulePackage.isMulti data)
                         then [DataRule rule] else [])
                        r doc)))).
  - apply compileTemplates_shape.
  - intros contents.
    eapply (emits_bind _ _ _ (λ _ r t,
              ∃ written1 written2 doc,
                t = EvWriteFile rulePath (fst contents) written1
                    :: EvWriteFile testPath (snd contents) written2 :: doc ∧
                (doc = [] ∧ ¬ succeeded r
                 ∨ written1 = Ok tt ∧ written2 = Ok tt ∧
                   generates
                     (if truthy_bool (RulePackage.isMulti data)
                      then [ {| destination := docPath;
                                path := path (docFile dest) |} ]
                      else [])
                     (if truthy_bool (RulePackage.isMulti data)
                      then [DataRule rule] else [])
                     r doc))).
    + apply callings_shape.
    + intros _.
      eapply (emits_bind _ _ _ (λ _,
                generates
                  (if truthy_bool (RulePackage.isMulti data)
                   then [ {| destination := docPath;
                             path := path (docFile dest) |} ]
                   else [])
                  (if truthy_bool (RulePackage.isMulti data)
                   then [DataRule rule] else []))).
      * apply callings_shape.
      * intros _. destruct (truthy_bool (RulePackage.isMulti data)).
        -- apply one_file_generates.
        -- apply emits_ret. split; [constructor|]. split; [done|].
           intros _. by exists [], [].
      * intros e t (written1 & written2 & -> & _).
        exists written1, written2, []. split; [done|]. left. split; [done|by intros []].
      * intros [[] []] t1 r t2 (written1 & written2 & -> & Hboth) Hdoc.
        destruct (Hboth tt tt eq_refl) as [-> ->].
        exists (Ok tt), (Ok tt), t2. split; [done|]. right.
        split; [done|]. split; [done|]. exact Hdoc.
    + intros e t (made1 & made2 & -> & _).
      exists made1, made2, []. split; [done|]. left. split; [done|by intros []].
    + intros [[] []] t1 r t2 (made1 & made2 & -> & Hboth) Htail.
      destruct (Hboth tt tt eq_refl) as [-> ->].
      exists (Ok tt), (Ok tt), t2. split; [done|]. right.
      split; [done|]. split; [done|]. exact Htail.
  - intros e t (read1 & read2 & u & -> & Hu & _).
    split; [|split; [|by intros []]].
    + repeat constructor. by apply not_dialogue_resumptions.
    + simpl. by apply dirs_ready_resumptions.
  - intros [text1 text2] t1 r t2 (read1 & read2 & u & -> & Hu & Hok) Hrest.
    destruct (Hok text1 text2 eq_refl) as (content1 & content2 & -> & -> & Hrendered).
    destruct Hrest as (made1 & made2 & tail & -> & Htail).
    assert (Forall (λ ev, is_dialogue ev = false) u) as Hquiet
      by by apply not_dialogue_resumptions.
    assert (dirs_ready [] (EvReadFile (path (ruleFile dest)) (Ok content1)
                           :: EvReadFile (path (testFile dest)) (Ok content2) :: u))
      as Hready1 by (simpl; by apply dirs_ready_resumptions).
    assert (path_dirname rulePath ∈ [path_dirname testPath; path_dirname rulePath])
      as Hrule by (right; by left).
    assert (path_dirname testPath ∈ [path_dirname testPath; path_dirname rulePath])
      as Htest by by left.
    destruct Htail as [[-> Hfail]|(-> & -> & written1 & written2 & doc & -> & Hdoc)].
    { split; [|split; [|by intros ?]].
      - apply Forall_app. split; by repeat constructor.
      - apply dirs_ready_app; [done|]. by destruct made1, made2. }
    cbn [fst snd] in *.
    destruct Hdoc as [[-> Hfail]|(-> & -> & Hq & Hready & Hpiped)].
    { split; [|split; [|by intros ?]].
      - apply Forall_app. split; by repeat constructor.
      - by apply dirs_ready_app. }
    split; [|split].
    + apply Forall_app. split; by repeat constructor.
    + apply dirs_ready_app; [done|].
      simpl. split; [done|]. split; [done|].
      eapply dirs_ready_mono; [|done]. intros x Hx. by apply elem_of_nil in Hx.
    + intros Hr. destruct (Hpiped Hr)
        as (contents & texts & Hdata & Hcontents & Htexts & Hreads & Hrenders & Hwrites).
      exists (content1 :: content2 :: contents), (text1 :: text2 :: texts).
      rewrite !length_app, !length_fmap, !length_app in *. cbn [length] in *.
      split; [lia|]. split; [lia|]. split; [lia|].
      unfold reads, renders, writes in *.
      match goal with
      | |- context [?a :: ?b :: ?c :: ?d :: doc] =>
        change (a :: b :: c :: d :: doc) with ([a; b; c; d] ++ doc)
      end.
      rewrite !omap_app, Hreads, Hwrites, Hrenders.
      destruct Hrendered as [->| ->].
      all: destruct (truthy_bool (RulePackage.isMulti data)).
      all: cbn.
      all: split; [done|]; split; [|done].
      all: first [done|apply Permutation_swap].
Qed.

Lemma for_each_generates {A} (xs : list A) (body : A → Wizard unit)
    (files : A → list File) (data : A → list TemplateData) :
  (∀ x, emits (body x) (generates (files x) (data x))) →
  emits (for_each xs body) (generates (xs ≫= files) (xs ≫= data)).
Proof.
  intros Hbody.
  apply (emits_for_each xs body (λ x, generates (files x) (data x))
           (λ xs, generates (xs ≫= files) (xs ≫= data))); [done|..].
  - split; [constructor|]. split; [done|]. intros _. by exists [], [].
  - intros x xs' e t. apply generates_throw.
  - intros x xs' u t1 r t2 H1 H2. by apply (generates_app _ _ _ _ u).
Qed.

Lemma bind_singleton {A B} (f : A → B) (l : list A) :
  l ≫= (λ x, [f x]) = f <$> l.
Proof. induction l as [|x l IH]; [done|]. cbn. by f_equal. Qed.

Lemma generateRuleFiles_generates (dest : string) (data : RulePackage.t) :
  emits (generateRuleFiles dest data)
    (generates (manifest dest data) (manifest_data dest data)).
Proof.
  unfold generateRuleFiles, manifest, manifest_data.
  apply (emits_bind _ _
           (generates (commonFiles dest data ≫= λ file, [file])
                      (commonFiles dest data ≫= λ _, [DataPackage data]))
           (λ _, generates (RulePackage.rules data ≫= ruleFiles dest data)
                   (RulePackage.rules data
                      ≫= λ rule, (λ _, DataRule rule) <$> ruleFiles dest data rule))).
  - apply (for_each_generates _ _ (λ file, [file]) (λ _, [DataPackage data])),
      generateCommonFile_generates.
  - intros _. apply for_each_generates, generateRuleFile_generates.
  - intros e t. apply generates_throw.
  - intros [] t1 r t2 H1 H2.
    rewrite (bind_singleton id), list_fmap_id in H1.
    rewrite (bind_singleton (λ _, DataPackage data)) in H1.
    by apply (generates_app _ _ _ _ tt).
Qed.

(** For every package, a successful [generateRuleFiles] carries each file of
    the manifest through the pipeline.  The templates of the manifest are
    read, in its order.  The text read for a file is rendered with the data
    of the file: the package for a common file, the rule for a file of a
    rule (the renderings come in any order: the two templates of a rule
    are rendered in the order in which their reads settle).  And the text
    rendered for a file is what is written to the destination of the file,
    in the order of the manifest. *)
Theorem generateRuleFiles_pipes_manifest (dest : string) (data : RulePackage.t)
    (w : World Event Answers.t) :
  succeeded (fst (generateRuleFiles dest data w)) →
  ∃ t contents texts,
    trace (snd (generateRuleFiles dest data w)) = trace w ++ t ∧
    length contents = length (manifest dest data) ∧
    length texts = length (manifest dest data) ∧
    reads t = zip (path <$> manifest dest data) contents ∧
    renders t ≡ₚ zip (zip contents (manifest_data dest data)) texts ∧
    writes t = zip (destination <$> manifest dest data) texts.
Proof.
  intros Hrun.
  destruct (generateRuleFiles_generates dest data w) as (t & Ht & _ & _ & Hpiped).
  destruct (Hpiped Hrun) as (contents & texts & _ & Hc & Hx & Hreads & Hrenders & Hwrites).
  by exists t, contents, texts.
Qed.

(** Whatever its outcome, [generateRuleFiles] only writes a file after a
    [mkdirp] of its directory has succeeded. *)
Theorem generateRuleFiles_creates_directories_first (dest : string)
    (data : RulePackage.t) (w : World Event Answers.t)
    (pre post : list Event) (file content : string) (r : Result unit) :
  trace (snd (generateRuleFiles dest data w))
    = trace w ++ pre ++ EvWriteFile file content r :: post →
  ∃ u, EvMkdirp (path_dirname file) (Ok u) ∈ pre.
Proof.
  intros Htrace.
  destruct (generateRuleFiles_generates dest data w) as (t & Ht & _ & Hready & _).
  rewrite Ht in Htrace. apply app_inv_head in Htrace.
  destruct (dirs_ready_split [] t pre file content r post Hready Htrace)
    as [Hin|Hmade]; [by apply elem_of_nil in Hin|done].
Qed.

End generation_more.

(* ===================================================================== *)
(** * More properties of the generation driver                            *)
(* ===================================================================== *)

Section driver_more.
Import NewRuleWizard NewRuleTrace.
Context {N : Node} {M : Misc} {E : Effects}.
Implicit Types (t : list Event) (w : World Event Answers.t).

Lemma ask_trace (record : Result Answers.t → Event) w :
  trace (snd (ask record w)) = trace w ++ [record (fst (ask record w))].
Proof. unfold ask. by destruct (pending w). Qed.

Lemma askRules_outcome (rules : list Answers.t) w :
  ∃ asked,
    trace (snd (askRules rules w))
      = trace w ++ (EvPrompt QuestionsType.rule <$> asked) ∧
    ∀ all, fst (askRules rules w) = Ok all →
      ∃ answers, all = rules ++ answers ∧ asked = Ok <$> answers.
Proof.
  unfold askRules. generalize (late w) as left. generalize (trace w) as tr.
  generalize (pending w) as script.
  intros script. revert rules.
  induction script as [|[answer|e] rest IH]; intros rules tr left; simpl.
  - by exists [Throw prompt_closed].
  - destruct (truthy_bool (Answers.again answer)).
    + destruct (IH (rules ++ [answer])
                  (tr ++ [EvPrompt QuestionsType.rule (Ok answer)]) left)
        as (asked & Htrace & Hall).
      exists (Ok answer :: asked). split; [by rewrite Htrace, <- app_assoc|].
      intros all Hok. destruct (Hall all Hok) as (answers & -> & ->).
      exists (answer :: answers). by rewrite <- app_assoc.
    + exists [Ok answer]. split; [done|]. intros all [= <-]. by exists [answer].
  - by exists [Throw e].
Qed.

Lemma copyFiles_outcome (origin dest : string) w :
  ∃ t, trace (snd (copyFiles origin dest w)) = trace w ++ t ∧
    Forall (λ ev, is_dialogue ev = false) t ∧
    (succeeded (fst (copyFiles origin dest w)) → t = copy_events origin dest).
Proof.
  revert w. run_cases; (split; [repeat constructor|]); [|by intros []].
  intros _. unfold copy_events. by destruct a.
Qed.

(** The two phases of the [try] block: the dialogue, which ends with the
    package being built, and the generation. *)
Lemma newRule_try_phases w :
  ∃ t, trace (snd (newRule_try w)) = trace w ++ t ∧
    ((Forall (λ ev, is_dialogue ev = true) t ∧ ¬ succeeded (fst (newRule_try w)))
     ∨ ∃ results official rules pkg later,
         t = dialogue_of results official rules ++ later ∧
         RulePackage.constructor
           {| PackageData.answers := results;
              PackageData.official := official;
              PackageData.rules := rules |} = Ok pkg ∧
         (truthy_bool (Answers.multi results) = false → rules = []) ∧
         Forall (λ ev, is_dialogue ev = false) later ∧
         (succeeded (fst (newRule_try w)) →
          fst (newRule_try w) = Ok true ∧
          ∃ generation,
            later = static_copies pkg ++ generation
                    ++ [EvLog (created_message pkg);
                        EvLog (if RulePackage.official pkg
                               then howto_official pkg
                               else howto_community pkg)] ∧
            Forall (λ ev, failed ev = None) generation ∧
            generates (manifest (RulePackage.destination pkg) pkg)
              (manifest_data (RulePackage.destination pkg) pkg)
              (Ok tt) generation)).
Proof.
  unfold newRule_try, bind.
  pose proof (ask_trace (EvPrompt QuestionsType.main) w) as Hask.
  destruct (ask (EvPrompt QuestionsType.main) w) as [[results|e] w1];
    simpl in Hask.
  2: { exists [EvPrompt QuestionsType.main (Throw e)]. split; [done|]. left.
       split; [repeat constructor|by intros []]. }
  unfold call. cbn [fst snd].
  destruct (isOfficial (trace w1)) as [official|e] eqn:Hofficial.
  2: { exists [EvPrompt QuestionsType.main (Ok results); EvIsOfficial (Throw e)].
       cbn [trace snd fst]. rewrite Hask, <- app_assoc.
       split; [done|]. left. split; [repeat constructor|by intros []]. }
  set (w2 := {| pending := pending w1;
                trace := trace w1 ++ [EvIsOfficial (Ok official)];
                late := late w1 |}).
  assert (∃ asked,
            trace (snd ((if truthy_bool (Answers.multi results)
                         then askRules [] else ret []) w2))
              = trace w2 ++ (EvPrompt QuestionsType.rule <$> asked) ∧
            ∀ rules, fst ((if truthy_bool (Answers.multi results)
                           then askRules [] else ret []) w2) = Ok rules →
              asked = Ok <$> rules ∧
              (truthy_bool (Answers.multi results) = false → rules = []))
    as (asked & Hasked & Hrules).
  { destruct (truthy_bool (Answers.multi results)).
    - destruct (askRules_outcome [] w2) as (asked & Htrace & Hall).
      exists asked. split; [done|]. intros rules Hok.
      destruct (Hall rules Hok) as (answers & -> & ->). done.
    - exists []. split; [by rewrite app_nil_r|]. by intros rules [= <-]. }
  destruct ((if truthy_bool (Answers.multi results) then askRules [] else ret [])
              w2) as [[rules|e] w3]; cbn [fst snd] in *.
  2: { exists (EvPrompt QuestionsType.main (Ok results)
               :: EvIsOfficial (Ok official)
               :: (EvPrompt QuestionsType.rule <$> asked)).
       rewrite Hasked. subst w2. cbn [trace]. rewrite Hask, <- !app_assoc.
       split; [done|]. left. split; [|by intros []].
       repeat constructor. apply Forall_fmap. by apply Forall_true. }
  destruct (Hrules rules eq_refl) as [-> Hsingle]. clear Hrules.
  unfold lift.
  destruct (RulePackage.constructor _) as [pkg|e] eqn:Hpkg.
  2: { exists (EvPrompt QuestionsType.main (Ok results)
               :: EvIsOfficial (Ok official)
               :: (EvPrompt QuestionsType.rule <$> (Ok <$> rules))).
       cbn [fst snd]. rewrite Hasked. subst w2. cbn [trace]. rewrite Hask, <- !app_assoc.
       split; [done|]. left. split; [|by intros []].
       repeat constructor. apply Forall_fmap. by apply Forall_true. }
  cbn [fst snd].
  assert (trace w3 = trace w ++ dialogue_of results official rules) as Hdialogue.
  { rewrite Hasked. subst w2. cbn [trace]. rewrite Hask, <- !app_assoc.
    unfold dialogue_of. simpl. by rewrite <- list_fmap_compose. }
  clear Hasked Hask Hofficial w2.
  set (copied := (if negb (RulePackage.official pkg)
                  then copyFiles (path_join [module_dirname; "no-official-files"])
                         (RulePackage.destination pkg)
                  else ret tt) w3).
  assert (∃ t, trace (snd copied) = trace w3 ++ t ∧
               Forall (λ ev, is_dialogue ev = false) t ∧
               (succeeded (fst copied) →
                t = if negb (RulePackage.official pkg)
                    then copy_events (path_join [module_dirname; "no-official-files"])
                           (RulePackage.destination pkg)
                    else []))
    as (t1 & Ht1 & Hq1 & Hcopy1).
  { subst copied. destruct (negb (RulePackage.official pkg));
      [apply copyFiles_outcome|].
    exists []. by rewrite app_nil_r. }
  destruct copied as [[u1|e] w4]; cbn [fst snd] in *.
  2: { exists (dialogue_of results official rules ++ t1).
       rewrite Ht1, Hdialogue, <- app_assoc. split; [done|]. right.
       exists results, official, rules, pkg, t1.
       split; [done|]. split; [done|]. split; [done|]. split; [done|].
       by intros []. }
  destruct (copyFiles_outcome (path_join [module_dirname; "files"])
              (RulePackage.destination pkg) w4) as (t2 & Ht2 & Hq2 & Hcopy2).
  destruct (copyFiles _ _ w4) as [[u2|e] w5]; cbn [fst snd] in *.
  2: { exists (dialogue_of results official rules ++ t1 ++ t2).
       rewrite Ht2, Ht1, Hdialogue, <- !app_assoc. split; [done|]. right.
       exists results, official, rules, pkg, (t1 ++ t2).
       split; [done|]. split; [done|]. split; [done|].
       split; [by apply Forall_app|]. by intros []. }
  destruct (emits_and _ _ _
              (generateRuleFiles_generates (RulePackage.destination pkg) pkg)
              (generateRuleFiles_stops (RulePackage.destination pkg) pkg) w5)
    as (t3 & Ht3 & Hgen & Hstops).
  destruct (generateRuleFiles _ _ w5) as [[u3|e] w6]; cbn [fst snd] in *.
  2: { exists (dialogue_of results official rules ++ t1 ++ t2 ++ t3).
       rewrite Ht3, Ht2, Ht1, Hdialogue, <- !app_assoc. split; [done|]. right.
       exists results, official, rules, pkg, (t1 ++ t2 ++ t3).
       split; [done|]. split; [done|]. split; [done|].
       split; [|by intros []].
       apply Forall_app; split; [done|]. apply Forall_app; split; [done|].
       by destruct Hgen. }
  unfold emit, ret. cbn [fst snd trace].
  eexists. rewrite Ht3, Ht2, Ht1, Hdialogue, <- !app_assoc.
  split; [done|]. right.
  exists results, official, rules, pkg. eexists.
  split; [done|]. split; [done|]. split; [done|]. split.
  { apply Forall_app; split; [done|]. apply Forall_app; split; [done|].
    apply Forall_app; split; [by destruct Hgen|]. repeat constructor. }
  intros _. split; [done|]. exists t3.
  rewrite (Hcopy1 I), (Hcopy2 I). unfold static_copies.
  rewrite <- !app_assoc. split; [done|]. destruct u3.
  split; [|done]. apply first_failure_None. by eapply stops_at_failure_Ok.
Qed.

(** When [newRule] answers true, its trace is the dialogue (the package
    round, [isOfficial], and the rule rounds, none for a single rule), from
    whose answers the package was built; then the static copies; then a
    generation in which no call failed and which has carried each file of
    the manifest from its template to its destination (the templates read
    and the files written in the order of the manifest, the renderings in
    any order); and last the two closing messages.  Nothing is left
    running. *)
Theorem newRule_true_trace (script : list (Result Answers.t)) :
  fst (newRule {| newRule_flag := true |} (fresh script)) = Ok true →
  ∃ results official rules pkg generation contents texts,
    RulePackage.constructor
      {| PackageData.answers := results;
         PackageData.official := official;
         PackageData.rules := rules |} = Ok pkg ∧
    (truthy_bool (Answers.multi results) = false → rules = []) ∧
    trace (snd (newRule {| newRule_flag := true |} (fresh script)))
      = dialogue_of results official rules
        ++ static_copies pkg
        ++ generation
        ++ [EvLog (created_message pkg);
            EvLog (if RulePackage.official pkg
                   then howto_official pkg else howto_community pkg)] ∧
    Forall (λ ev, failed ev = None) generation ∧
    length contents = length (manifest (RulePackage.destination pkg) pkg) ∧
    length texts = length (manifest (RulePackage.destination pkg) pkg) ∧
    reads generation
      = zip (path <$> manifest (RulePackage.destination pkg) pkg) contents ∧
    renders generation
      ≡ₚ zip (zip contents (manifest_data (RulePackage.destination pkg) pkg))
             texts ∧
    writes generation
      = zip (destination <$> manifest (RulePackage.destination pkg) pkg) texts ∧
    late (snd (newRule {| newRule_flag := true |} (fresh script))) = [].
Proof.
  rewrite newRule_flag_on.
  destruct (newRule_try_phases (fresh script)) as (t & Ht & Hphases).
  destruct (newRule_try_leaves (fresh script)) as (l & Hl & Hnone & _).
  destruct (newRule_try (fresh script)) as [[b|e] w']; [|done].
  simpl in *. intros [= ->].
  destruct Hphases as [[_ Hfailed]|Hbuilt]; [by destruct Hfailed|].
  destruct Hbuilt as (results & official & rules & pkg & later
                      & -> & Hpkg & Hsingle & _ & Hsuccess).
  destruct (Hsuccess I) as (_ & generation & -> & Hclean & _ & _ & Hpiped).
  destruct (Hpiped I)
    as (contents & texts & _ & Hc & Hx & Hreads & Hrenders & Hwrites).
  exists results, official, rules, pkg, generation, contents, texts.
  rewrite Ht, Hl, (Hnone I). by repeat split.
Qed.

Lemma generation_not_dialogue (ev : Event) :
  is_generation ev = true → is_dialogue ev = false.
Proof. by destruct ev. Qed.

(** Nothing is copied, read, rendered, created or written before the
    dialogue is complete and the package is built: a run whose trace has an
    event of the generation starts with a dialogue in which every call
    succeeded, its answers build a package, and no prompt follows.  So a
    run in which a prompt or [isOfficial] is rejected, or whose answers
    do not build a package, leaves the disk as it was. *)
Theorem newRule_generates_after_dialogue (script : list (Result Answers.t))
    (ev : Event) :
  ev ∈ trace (snd (newRule {| newRule_flag := true |} (fresh script))) →
  is_generation ev = true →
  ∃ results official rules pkg later,
    trace (snd (newRule {| newRule_flag := true |} (fresh script)))
      = dialogue_of results official rules ++ later ∧
    RulePackage.constructor
      {| PackageData.answers := results;
         PackageData.official := official;
         PackageData.rules := rules |} = Ok pkg ∧
    Forall (λ ev, is_dialogue ev = false) later.
Proof.
  rewrite newRule_flag_on.
  destruct (newRule_try_phases (fresh script)) as (t & Ht & Hphases).
  assert (ev ∈ t → is_generation ev = true →
          ∃ results official rules pkg later,
            t = dialogue_of results official rules ++ later ∧
            RulePackage.constructor
              {| PackageData.answers := results;
                 PackageData.official := official;
                 PackageData.rules := rules |} = Ok pkg ∧
            Forall (λ ev, is_dialogue ev = false) later) as Hbuilt.
  { intros Hin Hgen. destruct Hphases as [[Hdialogue _]|Hbuilt].
    - rewrite Forall_forall in Hdialogue. apply Hdialogue in Hin.
      apply generation_not_dialogue in Hgen. congruence.
    - destruct Hbuilt as (results & official & rules & pkg & later
                          & -> & Hpkg & _ & Hlater & _).
      by exists results, official, rules, pkg, later. }
  destruct (newRule_try (fresh script)) as [[b|e] w']; simpl in *.
  - rewrite Ht. apply Hbuilt.
  - rewrite Ht. intros Hin Hgen.
    apply elem_of_app in Hin as [Hin|Hin].
    + destruct (Hbuilt Hin Hgen)
        as (results & official & rules & pkg & later & -> & Hpkg & Hlater).
      exists results, official, rules, pkg,
        (later ++ [EvLogError "Error trying to create new rule"; EvLogErrorValue e]).
      split; [by rewrite app_assoc|]. split; [done|].
      apply Forall_app. split; [done|]. repeat constructor.
    + apply elem_of_cons in Hin as [->|Hin]; [done|].
      apply elem_of_cons in Hin as [->|Hin]; [done|].
      by apply elem_of_nil in Hin.
Qed.

End driver_more.

Section new_rule_more_sessions.
Import NewRuleWizard NewRuleTrace Concrete.

Lemma NewRule_category_never_empty_witness :
  ∃ item,
    NewRule.constructor no_https None = Ok item ∧
    NewRule.category item ≠ "" ∧
    (∀ c, Answers.category no_https = Some c → c ≠ "" → NewRule.category item = c) ∧
    (Answers.category no_https = None ∨ Answers.category no_https = Some "" →
     NewRule.category item = "other").
Proof.
  eexists. split; [reflexivity|].
  exact (NewRule_category_never_empty no_https None _ eq_refl).
Defined.

Lemma single_package_holds_one_rule_witness :
  ∃ pkg item,
    RulePackage.constructor
      {| PackageData.answers := no_https;
         PackageData.official := true;
         PackageData.rules := [rule_round "ignored" "dom" false] |} = Ok pkg ∧
    RulePackage.rules pkg = [item] ∧
    NewRule.constructor no_https None = Ok item ∧
    NewRule.parentName item = None ∧
    NewRule.name item = RulePackage.name pkg ∧
    NewRule.normalizedName item = RulePackage.normalizedName pkg ∧
    NewRule.description item = RulePackage.description pkg ∧
    NewRule.className item
      = toPascalCase (RulePackage.normalizedName pkg) +:+ "Rule".
Proof.
  eexists.
  destruct (single_package_holds_one_rule
              {| PackageData.answers := no_https;
                 PackageData.official := true;
                 PackageData.rules := [rule_round "ignored" "dom" false] |}
              _ eq_refl eq_refl) as [item Hitem].
  exists item. split; [reflexivity|exact Hitem].
Defined.

Lemma escape_backticks_injective_witness :
  Handlebars.escape_backticks "a`b" = Handlebars.escape_backticks "a`b" ∧
  "a`b" = "a`b".
Proof.
  split; [reflexivity|].
  exact (escape_backticks_injective "a`b" "a`b" eq_refl).
Defined.

Lemma generateRuleFiles_pipes_manifest_witness :
  ∃ pkg,
    RulePackage.constructor
      {| PackageData.answers := no_https;
         PackageData.official := false;
         PackageData.rules := [] |} = Ok pkg ∧
    ∃ t contents texts,
      trace (snd (generateRuleFiles (E := healthy false)
                    "/work/packages/rule-no-https" pkg (fresh [])))
        = [] ++ t ∧
      length contents = length (manifest "/work/packages/rule-no-https" pkg) ∧
      length texts = length (manifest "/work/packages/rule-no-https" pkg) ∧
      reads t = zip (path <$> manifest "/work/packages/rule-no-https" pkg) contents ∧
      renders t
        ≡ₚ zip (zip contents (manifest_data "/work/packages/rule-no-https" pkg))
               texts ∧
      writes t = zip (destination <$> manifest "/work/packages/rule-no-https" pkg)
                     texts.
Proof.
  eexists. split; [reflexivity|].
  refine (generateRuleFiles_pipes_manifest (E := healthy false) _ _ (fresh []) _).
  vm_compute. exact I.
Defined.

Lemma generateRuleFiles_creates_directories_first_witness :
  ∃ pkg,
    RulePackage.constructor
      {| PackageData.answers := no_https;
         PackageData.official := true;
         PackageData.rules := [] |} = Ok pkg ∧
    ∃ u, EvMkdirp (path_dirname "/work/packages/rule-no-https/src/index.ts") (Ok u)
           ∈ take 3 (trace (snd (generateRuleFiles (E := healthy true)
                                   "/work/packages/rule-no-https" pkg (fresh [])))).
Proof.
  eexists. split; [reflexivity|].
  match goal with
  | |- ∃ u, _ ∈ take 3 (trace (snd (generateRuleFiles _ ?pkg _))) =>
    refine (generateRuleFiles_creates_directories_first (E := healthy true)
              "/work/packages/rule-no-https" pkg (fresh [])
              (take 3 (trace (snd (generateRuleFiles (E := healthy true)
                                     "/work/packages/rule-no-https" pkg (fresh [])))))
              (drop 4 (trace (snd (generateRuleFiles (E := healthy true)
                                     "/work/packages/rule-no-https" pkg (fresh [])))))
              "/work/packages/rule-no-https/src/index.ts" index_template (Ok tt) _)
  end.
  vm_compute. reflexivity.
Defined.

Lemma newRule_true_trace_witness :
  let run := newRule (E := healthy true) {| newRule_flag := true |}
               (fresh [Ok no_https]) in
  ∃ results official rules pkg generation contents texts,
    RulePackage.constructor
      {| PackageData.answers := results;
         PackageData.official := official;
         PackageData.rules := rules |} = Ok pkg ∧
    (truthy_bool (Answers.multi results) = false → rules = []) ∧
    trace (snd run)
      = dialogue_of results official rules
        ++ static_copies pkg
        ++ generation
        ++ [EvLog (created_message pkg);
            EvLog (if RulePackage.official pkg
                   then howto_official pkg else howto_community pkg)] ∧
    Forall (λ ev, failed ev = None) generation ∧
    length contents = length (manifest (RulePackage.destination pkg) pkg) ∧
    length texts = length (manifest (RulePackage.destination pkg) pkg) ∧
    reads generation
      = zip (path <$> manifest (RulePackage.destination pkg) pkg) contents ∧
    renders generation
      ≡ₚ zip (zip contents (manifest_data (RulePackage.destination pkg) pkg))
             texts ∧
    writes generation
      = zip (destination <$> manifest (RulePackage.destination pkg) pkg) texts ∧
    late (snd run) = [].
Proof.
  refine (newRule_true_trace (E := healthy true) [Ok no_https] _).
  vm_compute. reflexivity.
Defined.

Lemma newRule_generates_after_dialogue_witness :
  let run := newRule (E := healthy true) {| newRule_flag := true |}
               (fresh [Ok no_https]) in
  ∃ results official rules pkg later,
    trace (snd run) = dialogue_of results official rules ++ later ∧
    RulePackage.constructor
      {| PackageData.answers := results;
         PackageData.official := official;
         PackageData.rules := rules |} = Ok pkg ∧
    Forall (λ ev, is_dialogue ev = false) later.
Proof.
  refine (newRule_generates_after_dialogue (E := healthy true) [Ok no_https]
            (EvMkdirp "/work/packages/rule-no-https/src" (Ok tt)) _ eq_refl).
  apply (list_elem_of_lookup_2 _ 7). vm_compute. reflexivity.
Defined.

End new_rule_more_sessions.
